(** * Firestore-Retry: the retry engine of [src/retry.ts]

    A shallow embedding of the error classifier, the back-off delay, the
    attempt loop, the batch accumulator and the configuration presets, with
    the properties the specification states about them.

    Conventions of the embedding.
    - A JavaScript number is read as an exact rational ([Q]).  The model
      is that of the code on finite numbers where the double operations are
      exact; rounding, overflow, NaN and the infinities are outside it, and
      so is a configuration field that is present but undefined.  Nothing
      is stated here about the value of a delay beyond what [Math.min]
      gives, and what is stated about runs is about finite [maxRetries].
      Equality of numbers is [Qeq] ([==]), as [===] compares numeric
      values.
    - A JavaScript string is a Rocq [string]; [toLowerCase] folds the ASCII
      letters.
    - A JavaScript value is one of undefined, null, a boolean, a number, a
      string or an object with data properties.  Function-valued properties,
      getters and proxies are not modelled.
    - [Math.random] is a stream of draws, the caller's operation a stream of
      settlements, the log sink and the timer a trace of events. *)

From Stdlib Require Import List String Ascii Bool Arith ZArith QArith Qminmax
  Qround Qpower Lia.
Import ListNotations.
Open Scope string_scope.
Set Warnings "-register-all".

(** ** JavaScript values *)

Inductive JsValue : Type :=
| JUndefined
| JNull
| JBool (b : bool)
| JNum (q : Q)
| JStr (s : string)
| JObj (props : list (string * JsValue)).

(** A call either returns or throws. *)
Inductive Completion (A : Type) : Type :=
| Returns (a : A)
| Throws (e : JsValue).
Arguments Returns {A} a.
Arguments Throws {A} e.

Definition bind {A B} (c : Completion A) (k : A -> Completion B) : Completion B :=
  match c with
  | Returns a => k a
  | Throws e => Throws e
  end.

Notation "x <- c ;; k" := (bind c (fun x => k))
  (at level 61, c at next level, right associativity).

(** [new Error(message)] and the TypeError the engine raises for a call of
    something that is not a function, as the objects a handler observes. *)
Definition new_Error (message : string) : JsValue :=
  JObj [("name", JStr "Error"); ("message", JStr message)].

Definition TypeError_not_a_function : JsValue :=
  JObj [("name", JStr "TypeError"); ("message", JStr "toLowerCase is not a function")].

(** Property read [o.name] on an object's own data properties. *)
Fixpoint lookup (name : string) (props : list (string * JsValue)) : JsValue :=
  match props with
  | [] => JUndefined
  | (k, v) :: rest => if String.eqb k name then v else lookup name rest
  end.

(** [o?.name]: undefined on null and undefined; a primitive has none of the
    properties read here. *)
Definition opt_get (o : JsValue) (name : string) : JsValue :=
  match o with
  | JObj props => lookup name props
  | _ => JUndefined
  end.

(** ** Strings *)

Definition lower_ascii (c : ascii) : ascii :=
  let n := nat_of_ascii c in
  if (65 <=? n)%nat && (n <=? 90)%nat then ascii_of_nat (n + 32) else c.

Fixpoint toLowerCase (s : string) : string :=
  match s with
  | EmptyString => EmptyString
  | String c rest => String (lower_ascii c) (toLowerCase rest)
  end.

(** [s.includes(sub)]: [sub] occurs in [s] at some position. *)
Fixpoint includes (s sub : string) : bool :=
  String.prefix sub s ||
  match s with
  | EmptyString => false
  | String _ rest => includes rest sub
  end.

(** [v?.toLowerCase()]: undefined ([None]) on null and undefined, the folded
    string on a string, a TypeError on every other value, which has no
    callable [toLowerCase]. *)
Definition opt_toLowerCase (v : JsValue) : Completion (option string) :=
  match v with
  | JUndefined | JNull => Returns None
  | JStr s => Returns (Some (toLowerCase s))
  | _ => Throws TypeError_not_a_function
  end.

(** Truthiness of the operands of [||] in the message chain. *)
Definition truthy (m : option string) : bool :=
  match m with
  | Some (String _ _) => true
  | _ => false
  end.

(** [errorCode === n]. *)
Definition strict_eq_num (v : JsValue) (n : Z) : bool :=
  match v with
  | JNum q => Qeq_bool q (inject_Z n)
  | _ => false
  end.

(** ** The error classifier *)

(** [error?.message?.toLowerCase() || error?.details?.toLowerCase() ||
    error?.msg?.toLowerCase() || ''] *)
Definition errorMessage_of (error : JsValue) : Completion string :=
  m1 <- opt_toLowerCase (opt_get error "message") ;;
  if truthy m1 then Returns (match m1 with Some s => s | None => "" end) else
  m2 <- opt_toLowerCase (opt_get error "details") ;;
  if truthy m2 then Returns (match m2 with Some s => s | None => "" end) else
  m3 <- opt_toLowerCase (opt_get error "msg") ;;
  if truthy m3 then Returns (match m3 with Some s => s | None => "" end) else
  Returns "".

(** The chain of [if] statements over the extracted message and code. *)
Definition verdict (errorMessage : string) (errorCode : JsValue) : bool :=
  if strict_eq_num errorCode 13 && includes errorMessage "rst_stream" then true
  else if includes errorMessage "quota exceeded" || includes errorMessage "write limit" then true
  else if strict_eq_num errorCode 14 || includes errorMessage "unavailable" then true
  else if includes errorMessage "timeout" || includes errorMessage "deadline exceeded" then true
  else if strict_eq_num errorCode 13 || includes errorMessage "internal server error" then true
  else if strict_eq_num errorCode 8 || includes errorMessage "resource exhausted" then true
  else false.

Definition isRetryableFirestoreError (error : JsValue) : Completion bool :=
  errorMessage <- errorMessage_of error ;;
  let errorCode := opt_get error "code" in
  Returns (verdict errorMessage errorCode).

(** The classifier with its first rule (the RST_STREAM case) deleted. *)
Definition verdict_without_rule1 (errorMessage : string) (errorCode : JsValue) : bool :=
  if includes errorMessage "quota exceeded" || includes errorMessage "write limit" then true
  else if strict_eq_num errorCode 14 || includes errorMessage "unavailable" then true
  else if includes errorMessage "timeout" || includes errorMessage "deadline exceeded" then true
  else if strict_eq_num errorCode 13 || includes errorMessage "internal server error" then true
  else if strict_eq_num errorCode 8 || includes errorMessage "resource exhausted" then true
  else false.

Definition isRetryable_without_rule1 (error : JsValue) : Completion bool :=
  errorMessage <- errorMessage_of error ;;
  let errorCode := opt_get error "code" in
  Returns (verdict_without_rule1 errorMessage errorCode).

(** ** The classifier as the specification words it *)

(** A field of the error value read as a string; the empty string when the
    field is absent or holds no string. *)
Definition spec_field (error : JsValue) (name : string) : string :=
  match opt_get error name with
  | JStr s => s
  | _ => ""
  end.

Definition non_empty (s : string) : bool := negb (String.eqb s "").

(** The first non-empty of message, details, msg, in lower case; the empty
    string when there is none. *)
Definition spec_message (error : JsValue) : string :=
  match find non_empty (map (spec_field error) ["message"; "details"; "msg"]) with
  | Some s => toLowerCase s
  | None => ""
  end.

(** The status code, if the error value carries a number there. *)
Definition spec_code (error : JsValue) : option Q :=
  match opt_get error "code" with
  | JNum q => Some q
  | _ => None
  end.

Definition code_is (c : option Q) (n : Z) : bool :=
  match c with
  | Some q => Qeq_bool q (inject_Z n)
  | None => false
  end.

(** Rules 1 to 6, in the order of the specification; each one, when it
    matches, says retryable. *)
Definition spec_rules : list (string -> option Q -> bool) :=
  [ fun m c => code_is c 13 && includes m "rst_stream";
    fun m c => includes m "quota exceeded" || includes m "write limit";
    fun m c => code_is c 14 || includes m "unavailable";
    fun m c => includes m "timeout" || includes m "deadline exceeded";
    fun m c => code_is c 13 || includes m "internal server error";
    fun m c => code_is c 8 || includes m "resource exhausted" ].

(** First match wins; rule 7 (no match) says not retryable. *)
Definition spec_verdict (error : JsValue) : bool :=
  existsb (fun rule => rule (spec_message error) (spec_code error)) spec_rules.

(** The shape the specification gives an error value: each of message,
    details and msg is absent, null or a string. *)
Definition string_or_absent (v : JsValue) : bool :=
  match v with
  | JUndefined | JNull | JStr _ => true
  | _ => false
  end.

Definition string_like (error : JsValue) : bool :=
  string_or_absent (opt_get error "message") &&
  string_or_absent (opt_get error "details") &&
  string_or_absent (opt_get error "msg").

(** ** Configuration *)

(** [RetryConfig]: every field optional. *)
Record RetryConfig : Type := mkRetryConfig {
  opt_maxRetries : option Q;
  opt_baseDelay : option Q;
  opt_maxDelay : option Q;
  opt_jitterFactor : option Q
}.

(** [Required<RetryConfig>]: every field present. *)
Record RequiredRetryConfig : Type := mkRequired {
  maxRetries : Q;
  baseDelay : Q;
  maxDelay : Q;
  jitterFactor : Q
}.

Definition DEFAULT_RETRY_CONFIG : RequiredRetryConfig :=
  {| maxRetries := 5; baseDelay := 1000; maxDelay := 30000; jitterFactor := 1 # 10 |}.

(** The literal [{}]. *)
Definition empty_config : RetryConfig := mkRetryConfig None None None None.

Definition or_default {A} (d : A) (o : option A) : A :=
  match o with
  | Some a => a
  | None => d
  end.

(** [{ ...base, ...config }]: a field of [config] that is present wins. *)
Definition spread (base : RequiredRetryConfig) (config : RetryConfig) : RequiredRetryConfig :=
  {| maxRetries := or_default (maxRetries base) (opt_maxRetries config);
     baseDelay := or_default (baseDelay base) (opt_baseDelay config);
     maxDelay := or_default (maxDelay base) (opt_maxDelay config);
     jitterFactor := or_default (jitterFactor base) (opt_jitterFactor config) |}.

(** A resolved configuration passed where a [RetryConfig] is expected. *)
Definition as_partial (c : RequiredRetryConfig) : RetryConfig :=
  mkRetryConfig (Some (maxRetries c)) (Some (baseDelay c)) (Some (maxDelay c))
                (Some (jitterFactor c)).

(** The presets of [RetryConfigs]. *)
Module RetryConfigs.
Definition FAST : RetryConfig := mkRetryConfig (Some 3) (Some 500) (Some 5000) None.
Definition STANDARD : RetryConfig := mkRetryConfig (Some 5) (Some 1000) (Some 30000) None.
Definition AGGRESSIVE : RetryConfig := mkRetryConfig (Some 10) (Some 1000) (Some 60000) None.
Definition PATIENT : RetryConfig := mkRetryConfig (Some 7) (Some 2000) (Some 120000) None.
Definition all : list RetryConfig := [FAST; STANDARD; AGGRESSIVE; PATIENT].
End RetryConfigs.

(** A configuration that names all four fields. *)
Definition specifies_all_fields (c : RetryConfig) : bool :=
  match opt_maxRetries c, opt_baseDelay c, opt_maxDelay c, opt_jitterFactor c with
  | Some _, Some _, Some _, Some _ => true
  | _, _, _, _ => false
  end.

(** ** The back-off delay *)

Open Scope Q_scope.

(** The three steps of [calculateDelay], in exact arithmetic: they are the
    source's values where its double operations neither round nor
    overflow.

    [config.baseDelay * Math.pow(2, attempt - 1)] *)
Definition exponentialDelay (attempt : Z) (config : RequiredRetryConfig) : Q :=
  baseDelay config * 2 ^ (attempt - 1).

(** [exponentialDelay * config.jitterFactor * Math.random()], the draw
    being [rnd]. *)
Definition jitter (attempt : Z) (config : RequiredRetryConfig) (rnd : Q) : Q :=
  exponentialDelay attempt config * jitterFactor config * rnd.

Definition totalDelay (attempt : Z) (config : RequiredRetryConfig) (rnd : Q) : Q :=
  exponentialDelay attempt config + jitter attempt config rnd.

Definition calculateDelay (attempt : Z) (config : RequiredRetryConfig) (rnd : Q) : Q :=
  Qmin (totalDelay attempt config rnd) (maxDelay config).

(** [Math.round]: the nearest integer, halves upwards. *)
Definition Math_round (x : Q) : Z := Qfloor (x + (1 # 2)).

(** ** The attempt loop *)

(** What a promise comes to: fulfilled, rejected, or never settled. *)
Inductive Promise (T : Type) : Type :=
| Fulfilled (v : T)
| Rejected (e : JsValue)
| Pending.
Arguments Fulfilled {T} v.
Arguments Rejected {T} e.
Arguments Pending {T}.

(** A line written with [console.warn].  The retry notice keeps the parts
    of its template: operation name, rounded delay, attempt, attempts
    allowed and [error.message]. *)
Inductive LogLine : Type :=
| RetryNotice (operationName : string) (roundedDelay : Z) (attempt : Z)
              (allowed : Q) (message : JsValue)
| Plain (text : string).

(** What the scheduler does to the outside, in order. *)
Inductive Event : Type :=
| Invoked (index : nat)
| Warned (line : LogLine)
| Slept (ms : Q).

(** The state one invocation of the scheduler threads: how often it has
    called the operation, how many random draws it has taken, and the
    events so far. *)
Record Sched : Type := mkSched {
  calls : nat;
  draws : nat;
  trace : list Event
}.

Definition fresh : Sched := mkSched 0 0 [].

(** [operation()] is called: the call is counted and recorded. *)
Definition invoke (st : Sched) : Sched :=
  mkSched (S (calls st)) (draws st) (trace st ++ [Invoked (calls st)]).

(** The retry branch of the handler: one draw for the delay, one warning,
    one sleep. *)
Definition back_off (operationName : string) (finalConfig : RequiredRetryConfig)
    (attempt : Z) (error : JsValue) (delay : Q) (st : Sched) : Sched :=
  mkSched (calls st) (S (draws st))
    (trace st ++
     [Warned (RetryNotice operationName (Math_round delay) attempt
                          (maxRetries finalConfig) (opt_get error "message"));
      Slept delay]).

(** The [for] loop of [retryOperation] from a given value of [attempt].
    [operation i] is what the (i+1)-th call of the caller's operation comes
    to, [random i] the (i+1)-th draw of [Math.random].  [fuel] bounds the
    iterations; [None] is out of fuel. *)
Fixpoint attempt_loop {T : Type} (operation : nat -> Promise T) (random : nat -> Q)
    (operationName : string) (finalConfig : RequiredRetryConfig)
    (fuel : nat) (attempt : Z) (st : Sched) : option (Promise T * Sched) :=
  match fuel with
  | O => None
  | S fuel' =>
    if Qle_bool (inject_Z attempt) (maxRetries finalConfig) then
      let st1 := invoke st in
      match operation (calls st) with
      | Fulfilled v => Some (Fulfilled v, st1)
      | Pending => Some (Pending, st1)
      | Rejected error =>
        if Qeq_bool (inject_Z attempt) (maxRetries finalConfig)
        then Some (Rejected error, st1)
        else
          match isRetryableFirestoreError error with
          | Throws raised => Some (Rejected raised, st1)
          | Returns false => Some (Rejected error, st1)
          | Returns true =>
            let delay := calculateDelay attempt finalConfig (random (draws st1)) in
            attempt_loop operation random operationName finalConfig fuel'
                         (attempt + 1)
                         (back_off operationName finalConfig attempt error delay st1)
          end
      end
    else
      Some (Rejected (new_Error ("Max retries exceeded for " ++ operationName)%string), st)
  end.

(** Iterations that suffice for a resolved configuration: one per attempt
    up to [maxRetries], and one for the test that ends the loop. *)
Definition fuel_for (finalConfig : RequiredRetryConfig) : nat :=
  S (Z.to_nat (Qfloor (maxRetries finalConfig))).

(** [retryOperation(operation, operationName = 'operation', config = {})];
    an omitted argument is [None]. *)
Definition retryOperation {T : Type} (operation : nat -> Promise T) (random : nat -> Q)
    (operationName : option string) (config : option RetryConfig)
    : option (Promise T * Sched) :=
  let operationName := or_default "operation" operationName in
  let finalConfig := spread DEFAULT_RETRY_CONFIG (or_default empty_config config) in
  attempt_loop operation random operationName finalConfig (fuel_for finalConfig) 1 fresh.

(** An [async] function that awaits a promise and returns nothing. *)
Definition await_void {T : Type} (r : option (Promise T * Sched))
    : option (Promise unit * Sched) :=
  match r with
  | Some (Fulfilled _, st) => Some (Fulfilled tt, st)
  | Some (Rejected e, st) => Some (Rejected e, st)
  | Some (Pending, st) => Some (Pending, st)
  | None => None
  end.

(** [retryFirestoreBatchCommit(batch, config = {})]: [batch_commit] is the
    stream of settlements of [batch.commit()]. *)
Definition retryFirestoreBatchCommit {T : Type} (batch_commit : nat -> Promise T)
    (random : nat -> Q) (config : option RetryConfig) : option (Promise unit * Sched) :=
  await_void (retryOperation batch_commit random (Some "Firestore batch commit") config).

Definition retryFirestoreOperation {T : Type} (operation : nat -> Promise T)
    (random : nat -> Q) (operationName : option string) (config : option RetryConfig)
    : option (Promise T * Sched) :=
  retryOperation operation random
    (Some (or_default "document operation" operationName)) config.

(** ** The batch accumulator *)

(** A directive handed to the underlying write batch. *)
Inductive Write : Type :=
| WSet (docRef : string) (data : JsValue) (options : option JsValue)
| WUpdate (docRef : string) (data : JsValue)
| WDelete (docRef : string).

(** The private fields of [RetryableBatch]; the underlying write batch is
    the list of directives it has been handed. *)
Record RetryableBatch : Type := mkBatch {
  batch : list Write;
  config : RequiredRetryConfig;
  operationCount : nat
}.

(** The constructor, and [createRetryableBatch]. *)
Definition new_RetryableBatch (cfg : option RetryConfig) : RetryableBatch :=
  mkBatch [] (spread DEFAULT_RETRY_CONFIG (or_default empty_config cfg)) 0.

Definition createRetryableBatch (cfg : option RetryConfig) : RetryableBatch :=
  new_RetryableBatch cfg.

(** The batch after a call of the underlying batch has returned and
    [this.operationCount++] has run: the write is held and counted. *)
Definition counted (this : RetryableBatch) (w : Write) : RetryableBatch :=
  mkBatch (batch this ++ [w]) (config this) (S (operationCount this)).

(** [set], [update] and [delete].  The call of the underlying batch comes
    first and is the client library's: [refuses held w] is what it throws
    at the write [w] when it holds [held] ([None] when it takes the
    write).  When it throws, the method throws with it, before the count
    is touched; otherwise the method counts the write and returns
    [this]. *)
Definition set (refuses : list Write -> Write -> option JsValue)
    (this : RetryableBatch) (docRef : string) (data : JsValue)
    (options : option JsValue) : Completion RetryableBatch :=
  match refuses (batch this) (WSet docRef data options) with
  | Some raised => Throws raised
  | None => Returns (counted this (WSet docRef data options))
  end.

Definition update (refuses : list Write -> Write -> option JsValue)
    (this : RetryableBatch) (docRef : string) (data : JsValue)
    : Completion RetryableBatch :=
  match refuses (batch this) (WUpdate docRef data) with
  | Some raised => Throws raised
  | None => Returns (counted this (WUpdate docRef data))
  end.

Definition delete (refuses : list Write -> Write -> option JsValue)
    (this : RetryableBatch) (docRef : string) : Completion RetryableBatch :=
  match refuses (batch this) (WDelete docRef) with
  | Some raised => Throws raised
  | None => Returns (counted this (WDelete docRef))
  end.

Definition getOperationCount (this : RetryableBatch) : nat := operationCount this.

(** The method a write stands for, called on [this]. *)
Definition call (refuses : list Write -> Write -> option JsValue)
    (this : RetryableBatch) (w : Write) : Completion RetryableBatch :=
  match w with
  | WSet docRef data options => set refuses this docRef data options
  | WUpdate docRef data => update refuses this docRef data
  | WDelete docRef => delete refuses this docRef
  end.

(** A sequence of calls on one batch, each in its own [try]: a call that
    throws leaves the batch as it was.  [call_all] is the batch after the
    calls, [returned] tells call by call which of them returned. *)
Fixpoint call_all (refuses : list Write -> Write -> option JsValue)
    (this : RetryableBatch) (ws : list Write) : RetryableBatch :=
  match ws with
  | [] => this
  | w :: rest =>
    match call refuses this w with
    | Returns this' => call_all refuses this' rest
    | Throws _ => call_all refuses this rest
    end
  end.

Fixpoint returned (refuses : list Write -> Write -> option JsValue)
    (this : RetryableBatch) (ws : list Write) : list bool :=
  match ws with
  | [] => []
  | w :: rest =>
    match call refuses this w with
    | Returns this' => true :: returned refuses this' rest
    | Throws _ => false :: returned refuses this rest
    end
  end.

(** One accumulating call that returned, and a sequence of them from the
    left: [accumulate_all this ws] is the batch that has taken the writes
    [ws]. *)
Definition accumulate (this : RetryableBatch) (w : Write) : RetryableBatch :=
  counted this w.

Definition accumulate_all (this : RetryableBatch) (ws : list Write) : RetryableBatch :=
  fold_left accumulate ws this.

(** [commit()].  [commit_primitive writes i] is what the (i+1)-th call of
    the underlying batch's [commit] comes to when the batch holds
    [writes]. *)
Definition commit {T : Type} (commit_primitive : list Write -> nat -> Promise T)
    (random : nat -> Q) (this : RetryableBatch) : option (Promise unit * Sched) :=
  if Nat.eqb (operationCount this) 0 then
    Some (Fulfilled tt,
          mkSched 0 0 [Warned (Plain "Attempting to commit empty batch")])
  else
    retryFirestoreBatchCommit (commit_primitive (batch this)) random
                              (Some (as_partial (config this))).

(** How often the trace records a call of the operation, and a sleep. *)
Definition is_invocation (ev : Event) : bool :=
  match ev with
  | Invoked _ => true
  | _ => false
  end.

Definition is_sleep (ev : Event) : bool :=
  match ev with
  | Slept _ => true
  | _ => false
  end.

Definition invocations (tr : list Event) : nat := List.length (filter is_invocation tr).
Definition sleeps (tr : list Event) : nat := List.length (filter is_sleep tr).

(** The configuration [retryOperation] and the batch constructor work with:
    the caller's fields over the defaults. *)
Definition resolved (config : option RetryConfig) : RequiredRetryConfig :=
  spread DEFAULT_RETRY_CONFIG (or_default empty_config config).

(** Error values used in the examples. *)
Definition unavailable_error : JsValue :=
  JObj [("code", JNum 14); ("message", JStr "unavailable")].

Definition permission_error : JsValue :=
  JObj [("code", JNum 7); ("message", JStr "permission denied")].

(** ** One pass through the loop body *)

(** The Error of the statement after the loop. *)
Definition max_retries_exceeded (operationName : string) : JsValue :=
  new_Error ("Max retries exceeded for " ++ operationName)%string.

(** What one iteration of the [for] loop comes to: the promise of
    [retryOperation] settles or stays pending ([Done]), or the loop goes on
    to the next attempt ([Again]). *)
Inductive Step (T : Type) : Type :=
| Done (result : Promise T * Sched)
| Again (st : Sched).
Arguments Done {T} result.
Arguments Again {T} st.

(** The loop test and the loop body at one value of [attempt]. *)
Definition iteration {T : Type} (operation : nat -> Promise T) (random : nat -> Q)
    (operationName : string) (finalConfig : RequiredRetryConfig)
    (attempt : Z) (st : Sched) : Step T :=
  if Qle_bool (inject_Z attempt) (maxRetries finalConfig) then
    let st1 := invoke st in
    match operation (calls st) with
    | Fulfilled v => Done (Fulfilled v, st1)
    | Pending => Done (Pending, st1)
    | Rejected error =>
      if Qeq_bool (inject_Z attempt) (maxRetries finalConfig)
      then Done (Rejected error, st1)
      else
        match isRetryableFirestoreError error with
        | Throws raised => Done (Rejected raised, st1)
        | Returns false => Done (Rejected error, st1)
        | Returns true =>
          Again (back_off operationName finalConfig attempt error
                   (calculateDelay attempt finalConfig (random (draws st1))) st1)
        end
    end
  else Done (Rejected (max_retries_exceeded operationName), st).

(** The ways an iteration at [attempt] in state [st] ends the loop, with
    the promise and the state it leaves. *)
Inductive Ends {T : Type} (operation : nat -> Promise T) (operationName : string)
    (finalConfig : RequiredRetryConfig) (attempt : Z) (st : Sched)
    : Promise T -> Sched -> Prop :=
| ends_after_loop :
    ~ inject_Z attempt <= maxRetries finalConfig ->
    Ends operation operationName finalConfig attempt st
         (Rejected (max_retries_exceeded operationName)) st
| ends_not_rejected :
    inject_Z attempt <= maxRetries finalConfig ->
    (forall e, operation (calls st) <> Rejected e) ->
    Ends operation operationName finalConfig attempt st
         (operation (calls st)) (invoke st)
| ends_last_attempt e :
    inject_Z attempt == maxRetries finalConfig ->
    operation (calls st) = Rejected e ->
    Ends operation operationName finalConfig attempt st (Rejected e) (invoke st)
| ends_not_retryable e :
    inject_Z attempt <= maxRetries finalConfig ->
    ~ inject_Z attempt == maxRetries finalConfig ->
    operation (calls st) = Rejected e ->
    isRetryableFirestoreError e = Returns false ->
    Ends operation operationName finalConfig attempt st (Rejected e) (invoke st)
| ends_classifier_throws e raised :
    inject_Z attempt <= maxRetries finalConfig ->
    ~ inject_Z attempt == maxRetries finalConfig ->
    operation (calls st) = Rejected e ->
    isRetryableFirestoreError e = Throws raised ->
    Ends operation operationName finalConfig attempt st (Rejected raised) (invoke st).

(** The durations slept and the warnings written, read off a trace. *)
Definition sleep_durations (tr : list Event) : list Q :=
  flat_map (fun ev => match ev with Slept ms => [ms] | _ => [] end) tr.

Definition is_warning (ev : Event) : bool :=
  match ev with
  | Warned _ => true
  | _ => false
  end.

Definition warnings (tr : list Event) : nat := List.length (filter is_warning tr).

(** The delays [retryOperation] computes, in order: the i-th (from 0) is
    for attempt i + 1, with the i-th draw. *)
Definition delay_schedule (random : nat -> Q) (finalConfig : RequiredRetryConfig)
    (n : nat) : list Q :=
  map (fun i => calculateDelay (Z.of_nat i + 1) finalConfig (random i)) (seq 0 n).

(** The message fragments and the status codes the rule chain looks for. *)
Definition transient_keywords : list string :=
  ["quota exceeded"; "write limit"; "unavailable"; "timeout"; "deadline exceeded";
   "internal server error"; "resource exhausted"].

Definition transient_codes : list Z := [8; 13; 14]%Z.

(** Retryable rejections on the first [j] calls. *)
Definition transient_until {T : Type} (operation : nat -> Promise T) (j : nat) : Prop :=
  forall i, (i < j)%nat ->
    exists e, operation i = Rejected e /\ isRetryableFirestoreError e = Returns true.

(** * Properties *)

(** ** Strings on concrete inputs *)

Example toLowerCase_mixed : toLowerCase "RST_STREAM Closed 13" = "rst_stream closed 13".
Proof. reflexivity. Qed.

Example includes_inside : includes "write limit reached" "limit" = true.
Proof. reflexivity. Qed.

Example includes_absent : includes "not found" "timeout" = false.
Proof. reflexivity. Qed.

Example includes_empty_needle : includes "" "" = true.
Proof. reflexivity. Qed.

(** ** The classifier on concrete error values *)

Example classify_unavailable :
  isRetryableFirestoreError (JObj [("code", JNum 14); ("message", JStr "UNAVAILABLE")])
  = Returns true.
Proof. reflexivity. Qed.

Example classify_permission_denied :
  isRetryableFirestoreError (JObj [("code", JNum 7); ("message", JStr "permission denied")])
  = Returns false.
Proof. reflexivity. Qed.

Example classify_details_fallback :
  isRetryableFirestoreError
    (JObj [("message", JStr ""); ("details", JStr "Deadline Exceeded")])
  = Returns true.
Proof. reflexivity. Qed.

Example classify_message_shadows_details :
  isRetryableFirestoreError
    (JObj [("message", JStr "not found"); ("details", JStr "timeout")])
  = Returns false.
Proof. reflexivity. Qed.

Example classify_null : isRetryableFirestoreError JNull = Returns false.
Proof. reflexivity. Qed.

Example classify_primitive : isRetryableFirestoreError (JStr "timeout") = Returns false.
Proof. reflexivity. Qed.

Example classify_code_as_string :
  isRetryableFirestoreError (JObj [("code", JStr "14")]) = Returns false.
Proof. reflexivity. Qed.

(** ** Helper lemmas on the rule chain *)

(** Case analysis on what the fields message, details and msg of [error]
    hold, in the order the chain reads them; [finish] closes a case as soon
    as it can. *)
Ltac message_fields error finish :=
  destruct (opt_get error "message") as [ | | | | [ | ? ?] | ];
    cbn; try solve [finish];
  destruct (opt_get error "details") as [ | | | | [ | ? ?] | ];
    cbn; try solve [finish];
  destruct (opt_get error "msg") as [ | | | | [ | ? ?] | ];
    cbn; solve [finish].

Lemma if_true_orb (a b : bool) : (if a then true else b) = a || b.
Proof. now destruct a. Qed.

Lemma strict_eq_num_code (error : JsValue) (n : Z) :
  strict_eq_num (opt_get error "code") n = code_is (spec_code error) n.
Proof.
  unfold spec_code. now destruct (opt_get error "code").
Qed.

(** The [if] chain is the disjunction of its six conditions. *)
Lemma verdict_orb (m : string) (c : JsValue) :
  verdict m c =
  (strict_eq_num c 13 && includes m "rst_stream")
  || ((includes m "quota exceeded" || includes m "write limit")
  || ((strict_eq_num c 14 || includes m "unavailable")
  || ((includes m "timeout" || includes m "deadline exceeded")
  || ((strict_eq_num c 13 || includes m "internal server error")
  || (strict_eq_num c 8 || includes m "resource exhausted"))))).
Proof.
  unfold verdict. rewrite !if_true_orb. now rewrite !orb_false_r.
Qed.

Lemma verdict_without_rule1_orb (m : string) (c : JsValue) :
  verdict_without_rule1 m c =
  (includes m "quota exceeded" || includes m "write limit")
  || ((strict_eq_num c 14 || includes m "unavailable")
  || ((includes m "timeout" || includes m "deadline exceeded")
  || ((strict_eq_num c 13 || includes m "internal server error")
  || (strict_eq_num c 8 || includes m "resource exhausted")))).
Proof.
  unfold verdict_without_rule1. rewrite !if_true_orb. now rewrite !orb_false_r.
Qed.

Lemma toLowerCase_empty (s : string) : toLowerCase s = "" -> s = "".
Proof. destruct s; simpl; [reflexivity | discriminate]. Qed.

(** On an error value of the specified shape the message chain returns the
    specification's message. *)
Lemma errorMessage_of_spec (error : JsValue) :
  string_like error = true ->
  errorMessage_of error = Returns (spec_message error).
Proof.
  unfold string_like, errorMessage_of, spec_message, spec_field.
  cbn [map]. message_fields error ltac:(first [discriminate | reflexivity]).
Qed.

(** On such a value the classifier returns, and what it returns is the rule
    chain on the specification's message and the code field. *)
Lemma classifier_returns_on_string_like (error : JsValue) :
  string_like error = true ->
  isRetryableFirestoreError error
  = Returns (verdict (spec_message error) (opt_get error "code")).
Proof.
  intros Hshape. unfold isRetryableFirestoreError.
  now rewrite (errorMessage_of_spec error Hshape).
Qed.

(** A classifier verdict of retryable is only given to an object. *)
Lemma retryable_is_object (error : JsValue) :
  isRetryableFirestoreError error = Returns true -> exists props, error = JObj props.
Proof.
  destruct error; try (cbn; discriminate). intros _. now exists props.
Qed.

(** ** The claims on the classifier *)

(** C1, as stated, fails: on an error value with code 14 and the number 42
    as message the rules say retryable, but the classifier throws instead
    of returning that verdict. *)
Lemma C1_counterexample :
  spec_verdict (JObj [("code", JNum 14); ("message", JNum 42)]) = true
  /\ isRetryableFirestoreError (JObj [("code", JNum 14); ("message", JNum 42)])
     = Throws TypeError_not_a_function
  /\ isRetryableFirestoreError (JObj [("code", JNum 14); ("message", JNum 42)])
     <> Returns (spec_verdict (JObj [("code", JNum 14); ("message", JNum 42)])).
Proof.
  split; [reflexivity | split; [reflexivity | ]]. cbn. discriminate.
Qed.

(** C1, amended.  On every error value on which [isRetryableFirestoreError] returns,
    what it returns is the verdict of the specification: the lower-cased
    first non-empty of message, details, msg (the empty string if there is
    none) and the code are put to rules 1 to 6 in order, the first match
    says retryable, no match says not retryable.  It returns on every error
    value whose message, details and msg are absent, null or strings: it
    throws only where one of them is something else. *)
Theorem C1_classifier_follows_rules (error : JsValue) :
  match isRetryableFirestoreError error with
  | Returns b => b = spec_verdict error
  | Throws _ => string_like error = false
  end.
Proof.
  assert (Hrules : verdict (spec_message error) (opt_get error "code")
                   = spec_verdict error).
  { rewrite verdict_orb. unfold spec_verdict, spec_rules.
    cbn [existsb]. rewrite !strict_eq_num_code. now rewrite !orb_false_r. }
  destruct (string_like error) eqn:Hshape.
  - now rewrite (classifier_returns_on_string_like error Hshape).
  - rewrite <- Hrules. clear Hrules Hshape.
    unfold isRetryableFirestoreError, errorMessage_of, spec_message, spec_field.
    cbn [map]. message_fields error ltac:(reflexivity).
Qed.

(** C6. Rule 1 never decides the verdict: the classifier without it is the
    same function, on every error value, throwing included. *)
Theorem C6_rule1_subsumed (error : JsValue) :
  isRetryable_without_rule1 error = isRetryableFirestoreError error.
Proof.
  unfold isRetryable_without_rule1, isRetryableFirestoreError.
  destruct (errorMessage_of error) as [m | e]; cbn [bind]; [ | reflexivity].
  f_equal. rewrite verdict_orb, verdict_without_rule1_orb.
  destruct (strict_eq_num (opt_get error "code") 13); cbn [andb orb].
  - destruct (includes m "rst_stream"); cbn [orb]; [ | reflexivity].
    now rewrite !orb_true_r.
  - reflexivity.
Qed.

(** C8, as stated, fails: an error value whose message is the number 42
    makes the classifier throw a TypeError instead of returning a
    boolean. *)
Lemma C8_counterexample :
  isRetryableFirestoreError (JObj [("message", JNum 42)]) = Throws TypeError_not_a_function
  /\ ~ (exists b, isRetryableFirestoreError (JObj [("message", JNum 42)]) = Returns b).
Proof.
  split; [reflexivity | ]. intros [b Hb]. cbn in Hb. discriminate.
Qed.

(** C8, amended.  On every error value whose fields message, details and
    msg are absent, null or strings (null, undefined, primitives and
    objects without any of the fields among them) the classifier returns a
    boolean and does not throw; it is a function of the error value alone.
    What it throws on any other value is the TypeError of calling a missing
    [toLowerCase]. *)
Theorem C8_classifier_total_on_string_fields (error : JsValue) :
  (string_like error = true -> exists b, isRetryableFirestoreError error = Returns b)
  /\ (forall raised, isRetryableFirestoreError error = Throws raised ->
        raised = TypeError_not_a_function /\ string_like error = false).
Proof.
  split.
  - intros Hshape. eexists.
    now apply classifier_returns_on_string_like.
  - intros raised Hthrow.
    destruct (string_like error) eqn:Hshape.
    + rewrite (classifier_returns_on_string_like error Hshape) in Hthrow. discriminate.
    + split; [ | reflexivity].
      revert Hthrow. unfold isRetryableFirestoreError, errorMessage_of.
      message_fields error ltac:(congruence).
Qed.

(** ** The back-off delay *)

Example delay_first_attempt_default :
  calculateDelay 1 DEFAULT_RETRY_CONFIG (1 # 2) == 1050.
Proof. reflexivity. Qed.

Example delay_capped_default :
  calculateDelay 6 DEFAULT_RETRY_CONFIG 0 == 30000.
Proof. reflexivity. Qed.

(** ** The attempt loop *)

Example retry_then_success :
  retryOperation
    (fun i => match i with O => Rejected unavailable_error | _ => Fulfilled 7%Z end)
    (fun _ => 1 # 2) (Some "read") None
  = Some (Fulfilled 7%Z,
          mkSched 2 1
            [Invoked 0;
             Warned (RetryNotice "read" 1050 1 5 (JStr "unavailable"));
             Slept (21000 # 20);
             Invoked 1]).
Proof. reflexivity. Qed.

Example single_attempt_allowed :
  retryOperation (T := unit) (fun _ => Rejected unavailable_error) (fun _ => 0) None
    (Some (mkRetryConfig (Some 1) None None None))
  = Some (Rejected unavailable_error, mkSched 1 0 [Invoked 0]).
Proof. reflexivity. Qed.

Example fractional_maxRetries_falls_through :
  option_map (fun r => (fst r, calls (snd r)))
    (retryOperation (T := unit) (fun _ => Rejected unavailable_error) (fun _ => 0) None
       (Some (mkRetryConfig (Some (3 # 2)) None None None)))
  = Some (Rejected (new_Error "Max retries exceeded for operation"), 1%nat).
Proof. reflexivity. Qed.

Example classifier_throw_replaces_error :
  retryOperation (T := unit) (fun _ => Rejected (JObj [("message", JNum 42)]))
    (fun _ => 0) None None
  = Some (Rejected TypeError_not_a_function, mkSched 1 0 [Invoked 0]).
Proof. reflexivity. Qed.

Lemma invocations_app (tr tr' : list Event) :
  invocations (tr ++ tr') = (invocations tr + invocations tr')%nat.
Proof. unfold invocations. now rewrite filter_app, length_app. Qed.

Lemma sleeps_app (tr tr' : list Event) :
  sleeps (tr ++ tr') = (sleeps tr + sleeps tr')%nat.
Proof. unfold sleeps. now rewrite filter_app, length_app. Qed.

Lemma attempt_within (attempt : Z) (q : Q) :
  inject_Z attempt <= q -> (attempt <= Qfloor q)%Z.
Proof.
  intros H. rewrite <- (Qfloor_Z attempt). now apply Qfloor_resp_le.
Qed.

Section AttemptLoop.

Context {T : Type} (operation : nat -> Promise T) (random : nat -> Q).
Context (operationName : string) (finalConfig : RequiredRetryConfig).

(** The loop returns: fuel above the attempts still allowed is enough. *)
Lemma attempt_loop_total :
  forall (fuel : nat) (attempt : Z) (st : Sched),
    (Z.max 0 (Qfloor (maxRetries finalConfig) - attempt + 1) < Z.of_nat fuel)%Z ->
    exists r, attempt_loop operation random operationName finalConfig fuel attempt st
              = Some r.
Proof.
  induction fuel as [ | fuel IH]; intros attempt st Hfuel; [lia | ].
  cbn [attempt_loop].
  destruct (Qle_bool (inject_Z attempt) (maxRetries finalConfig)) eqn:Hle;
    [ | eexists; reflexivity].
  apply Qle_bool_iff, attempt_within in Hle.
  destruct (operation (calls st)) as [v | error | ]; try (eexists; reflexivity).
  destruct (Qeq_bool (inject_Z attempt) (maxRetries finalConfig));
    [eexists; reflexivity | ].
  destruct (isRetryableFirestoreError error) as [[ | ] | raised];
    try (eexists; reflexivity).
  apply IH. lia.
Qed.

(** A transient failure on each of the [j + 1] attempts that are left: the
    loop makes them all and rejects with the last error. *)
Lemma attempt_loop_exhausts :
  forall (j fuel : nat) (attempt : Z) (st : Sched),
    (j < fuel)%nat ->
    maxRetries finalConfig == inject_Z (attempt + Z.of_nat j) ->
    (forall i, (i <= j)%nat ->
       exists e, operation (calls st + i)%nat = Rejected e
                 /\ isRetryableFirestoreError e = Returns true) ->
    exists e st',
      attempt_loop operation random operationName finalConfig fuel attempt st
      = Some (Rejected e, st')
      /\ operation (calls st + j)%nat = Rejected e
      /\ calls st' = (calls st + j + 1)%nat
      /\ invocations (trace st') = (invocations (trace st) + j + 1)%nat
      /\ sleeps (trace st') = (sleeps (trace st) + j)%nat.
Proof.
  induction j as [ | j IH]; intros fuel attempt st Hfuel Hmax Hops;
    (destruct fuel as [ | fuel]; [lia | ]); cbn [attempt_loop].
  - assert (Hle : Qle_bool (inject_Z attempt) (maxRetries finalConfig) = true).
    { apply Qle_bool_iff. rewrite Hmax, Z.add_0_r. apply Qle_refl. }
    assert (Heq : Qeq_bool (inject_Z attempt) (maxRetries finalConfig) = true).
    { apply Qeq_bool_iff. rewrite Hmax, Z.add_0_r. reflexivity. }
    destruct (Hops 0%nat (Nat.le_refl _)) as (e & Hop & _).
    rewrite Nat.add_0_r in Hop |- *. rewrite Hle, Hop, Heq.
    exists e, (invoke st). cbn [invoke calls trace].
    rewrite invocations_app, sleeps_app. cbn.
    repeat split; lia.
  - assert (Hle : Qle_bool (inject_Z attempt) (maxRetries finalConfig) = true).
    { apply Qle_bool_iff. rewrite Hmax, <- Zle_Qle. lia. }
    assert (Heq : Qeq_bool (inject_Z attempt) (maxRetries finalConfig) = false).
    { destruct (Qeq_bool (inject_Z attempt) (maxRetries finalConfig)) eqn:E;
        [ | reflexivity].
      apply Qeq_bool_iff in E. rewrite Hmax in E. rewrite inject_Z_injective in E. lia. }
    destruct (Hops 0%nat (Nat.le_0_l _)) as (e0 & Hop0 & Hretry0).
    rewrite Nat.add_0_r in Hop0. rewrite Hle, Hop0, Heq, Hretry0.
    set (st2 := back_off operationName finalConfig attempt e0 _ (invoke st)).
    destruct (IH fuel (attempt + 1)%Z st2) as (e & st' & Hrun & Hlast & Hc & Hi & Hs).
    + lia.
    + rewrite Hmax. rewrite inject_Z_injective. lia.
    + intros i Hi. destruct (Hops (S i) ltac:(lia)) as (e & Hop & Hretry).
      exists e. split; [ | exact Hretry].
      subst st2. cbn [back_off invoke calls]. rewrite <- Hop. f_equal. lia.
    + exists e, st'. subst st2. cbn [back_off invoke calls trace] in *.
      rewrite !invocations_app in Hi. rewrite !sleeps_app in Hs. cbn in Hi, Hs.
      split; [exact Hrun | ].
      split; [rewrite <- Hlast; f_equal; lia | ].
      repeat split; lia.
Qed.

End AttemptLoop.

(** [retryOperation] always comes to a result. *)
Lemma retryOperation_total {T : Type} (operation : nat -> Promise T) (random : nat -> Q)
    (operationName : option string) (config : option RetryConfig) :
  exists r, retryOperation operation random operationName config = Some r.
Proof.
  unfold retryOperation. apply attempt_loop_total. unfold fuel_for. lia.
Qed.

(** C3. When the resolved maxRetries is an integer k >= 1 and each of the
    first k calls of the operation rejects with an error the classifier
    calls retryable, [retryOperation] calls the operation exactly k times,
    sleeps k - 1 times, and rejects with the very error of the k-th call. *)
Theorem C3_exhaustion_propagates_last_error {T : Type}
    (operation : nat -> Promise T) (random : nat -> Q)
    (operationName : option string) (config : option RetryConfig) (k : nat) :
  (1 <= k)%nat ->
  maxRetries (resolved config) == inject_Z (Z.of_nat k) ->
  (forall i, (i < k)%nat ->
     exists e, operation i = Rejected e /\ isRetryableFirestoreError e = Returns true) ->
  exists e st,
    retryOperation operation random operationName config = Some (Rejected e, st)
    /\ operation (k - 1)%nat = Rejected e
    /\ calls st = k
    /\ invocations (trace st) = k
    /\ sleeps (trace st) = (k - 1)%nat.
Proof.
  intros Hk Hmax Hops. unfold retryOperation. fold (resolved config).
  destruct (attempt_loop_exhausts operation random (or_default "operation" operationName)
              (resolved config) (k - 1)%nat (fuel_for (resolved config)) 1%Z fresh)
    as (e & st & Hrun & Hlast & Hc & Hi & Hs).
  - unfold fuel_for. rewrite Hmax, Qfloor_Z. lia.
  - rewrite Hmax. rewrite inject_Z_injective. lia.
  - intros i Hi. apply Hops. cbn [fresh calls]. lia.
  - exists e, st. cbn [fresh calls trace] in *.
    unfold invocations, sleeps in Hi, Hs. cbn in Hi, Hs.
    unfold invocations, sleeps.
    repeat split; try assumption; lia.
Qed.

Lemma C3_exhaustion_propagates_last_error_witness :
  exists e st,
    retryOperation (T := unit) (fun _ => Rejected unavailable_error) (fun _ => 1 # 2)
                   None (Some RetryConfigs.FAST)
    = Some (Rejected e, st)
    /\ Rejected (T := unit) unavailable_error = Rejected e
    /\ calls st = 3%nat
    /\ invocations (trace st) = 3%nat
    /\ sleeps (trace st) = 2%nat.
Proof.
  apply (C3_exhaustion_propagates_last_error (T := unit)
           (fun _ => Rejected unavailable_error) (fun _ => 1 # 2)
           None (Some RetryConfigs.FAST) 3%nat).
  - lia.
  - reflexivity.
  - intros i _. exists unavailable_error. split; reflexivity.
Defined.

(** C4. When at least one attempt is allowed and the first call of the
    operation rejects with an error the classifier calls not retryable,
    [retryOperation] rejects with that error after this one call: there is
    no draw, no warning and no sleep. *)
Theorem C4_permanent_error_propagates_at_once {T : Type}
    (operation : nat -> Promise T) (random : nat -> Q)
    (operationName : option string) (config : option RetryConfig) (e : JsValue) :
  1 <= maxRetries (resolved config) ->
  operation 0%nat = Rejected e ->
  isRetryableFirestoreError e = Returns false ->
  retryOperation operation random operationName config
  = Some (Rejected e, mkSched 1 0 [Invoked 0]).
Proof.
  intros Hmax Hop Hperm. unfold retryOperation, fuel_for. fold (resolved config).
  cbn [attempt_loop fresh calls].
  assert (Hle : Qle_bool (inject_Z 1) (maxRetries (resolved config)) = true)
    by (now apply Qle_bool_iff).
  rewrite Hle, Hop, Hperm.
  now destruct (Qeq_bool (inject_Z 1) (maxRetries (resolved config))).
Qed.

Lemma C4_permanent_error_propagates_at_once_witness :
  retryOperation (T := unit) (fun _ => Rejected permission_error) (fun _ => 0)
                 (Some "write") (Some RetryConfigs.AGGRESSIVE)
  = Some (Rejected permission_error, mkSched 1 0 [Invoked 0]).
Proof.
  apply (C4_permanent_error_propagates_at_once (T := unit)
           (fun _ => Rejected permission_error) (fun _ => 0)
           (Some "write") (Some RetryConfigs.AGGRESSIVE) permission_error).
  - discriminate.
  - reflexivity.
  - reflexivity.
Defined.

(** C10. When the resolved maxRetries is below 1, [retryOperation] never
    calls the operation and rejects with a new Error whose message is
    "Max retries exceeded for " followed by the operation name. *)
Theorem C10_no_attempt_allowed {T : Type}
    (operation : nat -> Promise T) (random : nat -> Q)
    (operationName : option string) (config : option RetryConfig) :
  maxRetries (resolved config) < 1 ->
  retryOperation operation random operationName config
  = Some (Rejected (new_Error ("Max retries exceeded for "
                               ++ or_default "operation" operationName)%string),
          fresh).
Proof.
  intros Hmax. unfold retryOperation, fuel_for. fold (resolved config).
  cbn [attempt_loop].
  destruct (Qle_bool (inject_Z 1) (maxRetries (resolved config))) eqn:Hle;
    [ | reflexivity].
  apply Qle_bool_iff in Hle. exfalso. apply (Qlt_not_le _ _ Hmax). exact Hle.
Qed.

Lemma C10_no_attempt_allowed_witness :
  maxRetries (resolved (Some (mkRetryConfig (Some 0) None None None))) < 1 /\
  retryOperation (fun _ => Fulfilled 7%Z) (fun _ => 0) (Some "read")
                 (Some (mkRetryConfig (Some 0) None None None))
  = Some (Rejected (new_Error "Max retries exceeded for read"), fresh).
Proof.
  split; [reflexivity | ].
  apply (C10_no_attempt_allowed (fun _ => Fulfilled 7%Z) (fun _ => 0) (Some "read")
           (Some (mkRetryConfig (Some 0) None None None))).
  reflexivity.
Defined.

(** ** The batch accumulator *)

Lemma spread_as_partial (base c : RequiredRetryConfig) : spread base (as_partial c) = c.
Proof. now destruct c. Qed.

Lemma accumulate_all_fields (ws : list Write) :
  forall this : RetryableBatch,
    batch (accumulate_all this ws) = (batch this ++ ws)%list
    /\ config (accumulate_all this ws) = config this
    /\ operationCount (accumulate_all this ws)
       = (operationCount this + List.length ws)%nat.
Proof.
  unfold accumulate_all.
  induction ws as [ | w ws IH]; intros this; cbn [fold_left].
  - rewrite app_nil_r, Nat.add_0_r. now repeat split.
  - destruct (IH (accumulate this w)) as (Hb & Hc & Hn).
    rewrite Hb, Hc, Hn.
    cbn [accumulate counted batch config operationCount List.length].
    rewrite <- app_assoc. repeat split; lia.
Qed.

(** The operation count is the number of accumulating calls. *)
Lemma getOperationCount_counts (cfg : option RetryConfig) (ws : list Write) :
  getOperationCount (accumulate_all (createRetryableBatch cfg) ws) = List.length ws.
Proof.
  unfold getOperationCount.
  now destruct (accumulate_all_fields ws (createRetryableBatch cfg)) as (_ & _ & ->).
Qed.

(** C9. A batch committed after no accumulating call warns, does not call
    the underlying commit and is fulfilled; after one call or more its
    commit is [retryOperation] on the underlying commit of the accumulated
    writes, named "Firestore batch commit", under the batch's own
    configuration, which is the constructor's argument over the
    defaults. *)
Theorem C9_commit_empty_or_delegates {T : Type}
    (commit_primitive : list Write -> nat -> Promise T) (random : nat -> Q)
    (cfg : option RetryConfig) (ws : list Write) :
  match ws with
  | [] =>
      commit commit_primitive random (accumulate_all (createRetryableBatch cfg) ws)
      = Some (Fulfilled tt,
              mkSched 0 0 [Warned (Plain "Attempting to commit empty batch")])
  | _ :: _ =>
      commit commit_primitive random (accumulate_all (createRetryableBatch cfg) ws)
      = await_void
          (retryOperation (commit_primitive ws) random (Some "Firestore batch commit")
             (Some (as_partial
                      (config (accumulate_all (createRetryableBatch cfg) ws)))))
      /\ config (accumulate_all (createRetryableBatch cfg) ws) = resolved cfg
      /\ resolved (Some (as_partial (resolved cfg))) = resolved cfg
  end.
Proof.
  destruct (accumulate_all_fields ws (createRetryableBatch cfg)) as (Hb & Hc & Hn).
  destruct ws as [ | w ws]; [reflexivity | ].
  unfold commit. rewrite Hn, Hb, Hc. cbn [createRetryableBatch new_RetryableBatch
    operationCount batch config List.length Nat.add Nat.eqb app].
  unfold retryFirestoreBatchCommit.
  split; [reflexivity | split; [reflexivity | ]].
  unfold resolved. cbn [or_default]. apply spread_as_partial.
Qed.

(** ** The presets *)

(** C7, as stated, fails: no preset names all four fields; FAST, for one,
    leaves jitterFactor out. *)
Lemma C7_counterexample :
  specifies_all_fields RetryConfigs.FAST = false
  /\ opt_jitterFactor RetryConfigs.FAST = None
  /\ existsb specifies_all_fields RetryConfigs.all = false.
Proof. repeat split. Qed.

(** C7, amended.  Each of the four presets names maxRetries, baseDelay and
    maxDelay and leaves jitterFactor out; merged over the defaults it gives
    a resolved configuration with these three values and the default
    jitter factor 1/10. *)
Theorem C7_presets_name_three_fields :
  Forall (fun preset : RetryConfig =>
            exists retries base cap,
              preset = mkRetryConfig (Some retries) (Some base) (Some cap) None
              /\ resolved (Some preset) = mkRequired retries base cap (1 # 10))
         RetryConfigs.all.
Proof.
  unfold RetryConfigs.all.
  repeat (apply Forall_cons; [do 3 eexists; split; reflexivity | ]).
  apply Forall_nil.
Qed.

(** * Further properties of the code *)

(** ** The loop, one iteration at a time *)

Section Iterations.

Context {T : Type} (operation : nat -> Promise T) (random : nat -> Q).
Context (operationName : string) (finalConfig : RequiredRetryConfig).

Local Abbreviation loop := (attempt_loop operation random operationName finalConfig).
Local Abbreviation iter := (iteration operation random operationName finalConfig).

Lemma attempt_loop_step (fuel : nat) (attempt : Z) (st : Sched) :
  loop (S fuel) attempt st
  = match iter attempt st with
    | Done r => Some r
    | Again st2 => loop fuel (attempt + 1) st2
    end.
Proof.
  cbn [attempt_loop]. unfold iteration.
  destruct (Qle_bool (inject_Z attempt) (maxRetries finalConfig)); [ | reflexivity].
  destruct (operation (calls st)) as [v | error | ]; try reflexivity.
  destruct (Qeq_bool (inject_Z attempt) (maxRetries finalConfig)); [reflexivity | ].
  now destruct (isRetryableFirestoreError error) as [[ | ] | raised].
Qed.

Lemma Qle_bool_false (x y : Q) : Qle_bool x y = false -> ~ x <= y.
Proof. intros H Hle. apply Qle_bool_iff in Hle. congruence. Qed.

(** An iteration that ends the loop ends it in one of the five ways. *)
Lemma iteration_done (attempt : Z) (st : Sched) (p : Promise T) (st' : Sched) :
  iter attempt st = Done (p, st') ->
  Ends operation operationName finalConfig attempt st p st'.
Proof.
  unfold iteration.
  destruct (Qle_bool (inject_Z attempt) (maxRetries finalConfig)) eqn:Hle.
  - apply Qle_bool_iff in Hle.
    destruct (operation (calls st)) as [v | error | ] eqn:Hop.
    + intros [= <- <-]. rewrite <- Hop.
      apply ends_not_rejected; [exact Hle | ]. intros e. rewrite Hop. discriminate.
    + destruct (Qeq_bool (inject_Z attempt) (maxRetries finalConfig)) eqn:Hlast.
      * apply Qeq_bool_iff in Hlast. intros [= <- <-].
        now apply ends_last_attempt.
      * apply Qeq_bool_neq in Hlast.
        destruct (isRetryableFirestoreError error) as [[ | ] | raised] eqn:Hcls.
        -- discriminate.
        -- intros [= <- <-]. now apply ends_not_retryable.
        -- intros [= <- <-]. now apply ends_classifier_throws with error.
    + intros [= <- <-]. rewrite <- Hop.
      apply ends_not_rejected; [exact Hle | ]. intros e. rewrite Hop. discriminate.
  - apply Qle_bool_false in Hle. intros [= <- <-]. now apply ends_after_loop.
Qed.

(** An iteration that goes on has seen a retryable rejection before the
    last attempt, and backs off. *)
Lemma iteration_again (attempt : Z) (st st2 : Sched) :
  iter attempt st = Again st2 ->
  inject_Z attempt <= maxRetries finalConfig
  /\ ~ inject_Z attempt == maxRetries finalConfig
  /\ exists e, operation (calls st) = Rejected e
       /\ isRetryableFirestoreError e = Returns true
       /\ st2 = back_off operationName finalConfig attempt e
                  (calculateDelay attempt finalConfig (random (draws st))) (invoke st).
Proof.
  unfold iteration.
  destruct (Qle_bool (inject_Z attempt) (maxRetries finalConfig)) eqn:Hle;
    [ | discriminate].
  apply Qle_bool_iff in Hle.
  destruct (operation (calls st)) as [v | error | ]; try discriminate.
  destruct (Qeq_bool (inject_Z attempt) (maxRetries finalConfig)) eqn:Hlast;
    [discriminate | ].
  apply Qeq_bool_neq in Hlast.
  destruct (isRetryableFirestoreError error) as [[ | ] | raised] eqn:Hcls;
    try discriminate.
  intros [= <-]. repeat split; try assumption. now exists error.
Qed.

(** The conditions under which an iteration goes on, the other way round. *)
Lemma iteration_retries (attempt : Z) (st : Sched) (e : JsValue) :
  inject_Z attempt <= maxRetries finalConfig ->
  ~ inject_Z attempt == maxRetries finalConfig ->
  operation (calls st) = Rejected e ->
  isRetryableFirestoreError e = Returns true ->
  iter attempt st
  = Again (back_off operationName finalConfig attempt e
             (calculateDelay attempt finalConfig (random (draws st))) (invoke st)).
Proof.
  intros Hle Hlast Hop Hcls. unfold iteration.
  apply Qle_bool_iff in Hle. rewrite Hle, Hop, Hcls.
  destruct (Qeq_bool (inject_Z attempt) (maxRetries finalConfig)) eqn:E;
    [ | reflexivity].
  apply Qeq_bool_iff in E. contradiction.
Qed.

(** A rule for the loop: an invariant of the state between iterations that
    every continuing iteration keeps, and a conclusion every ending
    iteration establishes from it. *)
Lemma attempt_loop_rule (Inv : Z -> Sched -> Prop) (Post : Promise T -> Sched -> Prop) :
  (forall attempt st st2,
      Inv attempt st -> iter attempt st = Again st2 -> Inv (attempt + 1)%Z st2) ->
  (forall attempt st p st',
      Inv attempt st -> Ends operation operationName finalConfig attempt st p st' ->
      Post p st') ->
  forall fuel attempt st p st',
    Inv attempt st -> loop fuel attempt st = Some (p, st') -> Post p st'.
Proof.
  intros Hkeep Hend.
  induction fuel as [ | fuel IH]; intros attempt st p st' Hinv Hrun; [discriminate | ].
  rewrite attempt_loop_step in Hrun.
  destruct (iter attempt st) as [[p0 st0] | st2] eqn:Hiter.
  - injection Hrun as -> ->. apply (Hend attempt st); [exact Hinv | ].
    now apply iteration_done.
  - apply (IH (attempt + 1)%Z st2); [ | exact Hrun]. now apply (Hkeep attempt st).
Qed.

End Iterations.

(** ** What every run of [retryOperation] keeps *)

Lemma warnings_app (tr tr' : list Event) :
  warnings (tr ++ tr') = (warnings tr + warnings tr')%nat.
Proof. unfold warnings. now rewrite filter_app, length_app. Qed.

Lemma sleep_durations_app (tr tr' : list Event) :
  sleep_durations (tr ++ tr') = (sleep_durations tr ++ sleep_durations tr')%list.
Proof. unfold sleep_durations. apply flat_map_app. Qed.

(** The fields of the state after a call and after a back-off. *)
Lemma invoke_counts (st : Sched) :
  calls (invoke st) = S (calls st) /\ draws (invoke st) = draws st
  /\ invocations (trace (invoke st)) = S (invocations (trace st))
  /\ sleeps (trace (invoke st)) = sleeps (trace st)
  /\ warnings (trace (invoke st)) = warnings (trace st)
  /\ sleep_durations (trace (invoke st)) = sleep_durations (trace st).
Proof.
  unfold invoke. cbn [calls draws trace].
  rewrite invocations_app, sleeps_app, warnings_app, sleep_durations_app. cbn.
  rewrite app_nil_r. repeat split; lia.
Qed.

Lemma back_off_counts (name : string) (cfg : RequiredRetryConfig) (attempt : Z)
    (e : JsValue) (delay : Q) (st : Sched) :
  calls (back_off name cfg attempt e delay st) = calls st
  /\ draws (back_off name cfg attempt e delay st) = S (draws st)
  /\ invocations (trace (back_off name cfg attempt e delay st)) = invocations (trace st)
  /\ sleeps (trace (back_off name cfg attempt e delay st)) = S (sleeps (trace st))
  /\ warnings (trace (back_off name cfg attempt e delay st)) = S (warnings (trace st))
  /\ sleep_durations (trace (back_off name cfg attempt e delay st))
     = (sleep_durations (trace st) ++ [delay])%list.
Proof.
  unfold back_off. cbn [calls draws trace].
  rewrite invocations_app, sleeps_app, warnings_app, sleep_durations_app. cbn.
  repeat split; lia.
Qed.

(** The counters of the state a run ends in. *)
Lemma retryOperation_counters {T : Type}
    (operation : nat -> Promise T) (random : nat -> Q)
    (operationName : option string) (config : option RetryConfig)
    (p : Promise T) (st : Sched) :
  retryOperation operation random operationName config = Some (p, st) ->
  (calls st <= Z.to_nat (Qfloor (maxRetries (resolved config))))%nat
  /\ invocations (trace st) = calls st
  /\ sleeps (trace st) = draws st
  /\ warnings (trace st) = draws st
  /\ (draws st <= calls st)%nat.
Proof.
  unfold retryOperation. fold (resolved config).
  set (cfg := resolved config). set (name := or_default "operation" operationName).
  intros Hrun.
  refine (attempt_loop_rule operation random name cfg
            (fun attempt st =>
               Z.of_nat (calls st) = (attempt - 1)%Z
               /\ (calls st <= Z.to_nat (Qfloor (maxRetries cfg)))%nat
               /\ invocations (trace st) = calls st
               /\ sleeps (trace st) = draws st
               /\ warnings (trace st) = draws st
               /\ draws st = calls st)
            (fun _ st =>
               (calls st <= Z.to_nat (Qfloor (maxRetries cfg)))%nat
               /\ invocations (trace st) = calls st
               /\ sleeps (trace st) = draws st
               /\ warnings (trace st) = draws st
               /\ (draws st <= calls st)%nat)
            _ _ _ _ _ _ _ _ Hrun).
  - intros attempt st0 st2 (Ha & Hb & Hi & Hs & Hw & Hd) Hiter.
    apply iteration_again in Hiter as (Hle & _ & e & _ & _ & ->).
    apply attempt_within in Hle.
    destruct (back_off_counts name cfg attempt e
                (calculateDelay attempt cfg (random (draws st0))) (invoke st0))
      as (-> & -> & -> & -> & -> & _).
    destruct (invoke_counts st0) as (-> & -> & -> & -> & -> & _).
    repeat split; lia.
  - intros attempt st0 p0 st' (Ha & Hb & Hi & Hs & Hw & Hd) Hends.
    destruct Hends as [Hout | Hle _ | e Heq _ | e Hle _ _ _ | e raised Hle _ _ _];
      try (assert (Hle : inject_Z attempt <= maxRetries cfg)
             by (rewrite Heq; apply Qle_refl));
      try (apply attempt_within in Hle;
           destruct (invoke_counts st0) as (-> & -> & -> & -> & -> & _));
      repeat split; lia.
  - cbn. repeat split; lia.
Qed.

(** X1. Whenever a run of [retryOperation] comes to a result, the operation
    has been called at most floor(maxRetries) times (never, when that is
    negative); every call is in the trace; each sleep goes with one warning
    and one random draw; and there are never more sleeps than calls. *)
Theorem X1_attempts_are_bounded {T : Type}
    (operation : nat -> Promise T) (random : nat -> Q)
    (operationName : option string) (config : option RetryConfig)
    (p : Promise T) (st : Sched) :
  retryOperation operation random operationName config = Some (p, st) ->
  (calls st <= Z.to_nat (Qfloor (maxRetries (resolved config))))%nat
  /\ invocations (trace st) = calls st
  /\ sleeps (trace st) = draws st
  /\ warnings (trace st) = draws st
  /\ (draws st <= calls st)%nat.
Proof.
  intros Hrun. exact (retryOperation_counters _ _ _ _ _ _ Hrun).
Qed.

Lemma X1_attempts_are_bounded_witness :
  exists p st,
    retryOperation (T := unit) (fun _ => Rejected unavailable_error) (fun _ => 1 # 2)
                   None (Some RetryConfigs.FAST)
    = Some (p, st)
    /\ (calls st <= 3)%nat
    /\ invocations (trace st) = calls st
    /\ sleeps (trace st) = draws st
    /\ warnings (trace st) = draws st
    /\ (draws st <= calls st)%nat.
Proof.
  eexists _, _. split; [reflexivity | ].
  eapply (X1_attempts_are_bounded (T := unit) (fun _ => Rejected unavailable_error)
           (fun _ => 1 # 2) None (Some RetryConfigs.FAST)).
  reflexivity.
Defined.

(** ** The sleeps of a run *)

Lemma delay_schedule_succ (random : nat -> Q) (cfg : RequiredRetryConfig) (n : nat) :
  delay_schedule random cfg (S n)
  = (delay_schedule random cfg n
     ++ [calculateDelay (Z.of_nat n + 1) cfg (random n)])%list.
Proof.
  unfold delay_schedule. now rewrite seq_S, map_app.
Qed.

Lemma calculateDelay_capped (attempt : Z) (cfg : RequiredRetryConfig) (r : Q) :
  calculateDelay attempt cfg r <= maxDelay cfg.
Proof. unfold calculateDelay. apply Q.le_min_r. Qed.

(** The durations slept in any run are the delay schedule, as far as the
    run has drawn. *)
Lemma retryOperation_sleeps_schedule {T : Type}
    (operation : nat -> Promise T) (random : nat -> Q)
    (operationName : option string) (config : option RetryConfig)
    (p : Promise T) (st : Sched) :
  retryOperation operation random operationName config = Some (p, st) ->
  sleep_durations (trace st) = delay_schedule random (resolved config) (draws st).
Proof.
  unfold retryOperation. fold (resolved config).
  set (cfg := resolved config). set (name := or_default "operation" operationName).
  intros Hrun.
  refine (attempt_loop_rule operation random name cfg
            (fun attempt st =>
               Z.of_nat (draws st) = (attempt - 1)%Z
               /\ sleep_durations (trace st) = delay_schedule random cfg (draws st))
            (fun _ st =>
               sleep_durations (trace st) = delay_schedule random cfg (draws st))
            _ _ _ _ _ _ _ _ Hrun).
  - intros attempt st0 st2 (Ha & Hs) Hiter.
    apply iteration_again in Hiter as (_ & _ & e & _ & _ & ->).
    destruct (back_off_counts name cfg attempt e
                (calculateDelay attempt cfg (random (draws st0))) (invoke st0))
      as (_ & -> & _ & _ & _ & ->).
    destruct (invoke_counts st0) as (_ & -> & _ & _ & _ & ->).
    split; [lia | ].
    rewrite delay_schedule_succ, Hs.
    now replace (Z.of_nat (draws st0) + 1)%Z with attempt by lia.
  - intros attempt st0 p0 st' (Ha & Hs) Hends.
    destruct Hends; try exact Hs;
      now destruct (invoke_counts st0) as (_ & -> & _ & _ & _ & ->).
  - split; reflexivity.
Qed.

(** X2. In every run of [retryOperation] the i-th sleep (from 0) lasts
    calculateDelay(i + 1, finalConfig) with the i-th draw of Math.random:
    the delay before the second attempt is computed with attempt = 1, and
    so on; and no sleep is longer than maxDelay. *)
Theorem X2_sleeps_follow_the_schedule {T : Type}
    (operation : nat -> Promise T) (random : nat -> Q)
    (operationName : option string) (config : option RetryConfig) :
  exists p st,
    retryOperation operation random operationName config = Some (p, st)
    /\ sleep_durations (trace st) = delay_schedule random (resolved config) (draws st)
    /\ Forall (fun ms => ms <= maxDelay (resolved config)) (sleep_durations (trace st)).
Proof.
  destruct (retryOperation_total operation random operationName config) as [[p st] Hrun].
  exists p, st. split; [exact Hrun | ].
  rewrite (retryOperation_sleeps_schedule _ _ _ _ _ _ Hrun).
  split; [reflexivity | ].
  unfold delay_schedule. apply Forall_map, Forall_forall. intros i _.
  apply calculateDelay_capped.
Qed.

(** ** Runs that begin with transient failures *)

Section Transients.

Context {T : Type} (operation : nat -> Promise T) (random : nat -> Q).
Context (operationName : string) (finalConfig : RequiredRetryConfig).

Local Abbreviation loop := (attempt_loop operation random operationName finalConfig).

(** [j] attempts in a row that are rejected with a retryable error, none of
    them the last one allowed: the loop backs off [j] times and stands at
    the attempt after them. *)
Lemma attempt_loop_after_transients :
  forall (j fuel : nat) (attempt : Z) (st : Sched),
    (forall i, (i < j)%nat ->
       inject_Z (attempt + Z.of_nat i) < maxRetries finalConfig
       /\ exists e, operation (calls st + i)%nat = Rejected e
                    /\ isRetryableFirestoreError e = Returns true) ->
    exists st_j,
      loop (j + fuel)%nat attempt st = loop fuel (attempt + Z.of_nat j)%Z st_j
      /\ calls st_j = (calls st + j)%nat
      /\ draws st_j = (draws st + j)%nat
      /\ invocations (trace st_j) = (invocations (trace st) + j)%nat
      /\ sleeps (trace st_j) = (sleeps (trace st) + j)%nat.
Proof.
  induction j as [ | j IH]; intros fuel attempt st Hops.
  - exists st. rewrite Z.add_0_r, !Nat.add_0_r. now repeat split.
  - destruct (Hops 0%nat ltac:(lia)) as (Hlt & e & Hop & Hcls).
    rewrite Z.add_0_r in Hlt. rewrite Nat.add_0_r in Hop.
    cbn [Nat.add]. rewrite attempt_loop_step.
    rewrite (iteration_retries operation random operationName finalConfig attempt st e);
      [ | now apply Qlt_le_weak | now apply Qlt_not_eq | exact Hop | exact Hcls].
    set (st2 := back_off _ _ _ _ _ _).
    destruct (back_off_counts operationName finalConfig attempt e
                (calculateDelay attempt finalConfig (random (draws st))) (invoke st))
      as (Hc & Hd & Hi & Hs & _ & _).
    destruct (invoke_counts st) as (Hc' & Hd' & Hi' & Hs' & _ & _).
    fold st2 in Hc, Hd, Hi, Hs.
    destruct (IH fuel (attempt + 1)%Z st2) as (st_j & Hrun & Hcj & Hdj & Hij & Hsj).
    + intros i Hi0. destruct (Hops (S i) ltac:(lia)) as (Hlt' & e' & Hop' & Hcls').
      split.
      * now replace (attempt + 1 + Z.of_nat i)%Z with (attempt + Z.of_nat (S i))%Z by lia.
      * exists e'. split; [ | exact Hcls'].
        rewrite <- Hop'. f_equal. lia.
    + exists st_j. rewrite Hrun.
      replace (attempt + 1 + Z.of_nat j)%Z with (attempt + Z.of_nat (S j))%Z by lia.
      repeat split; lia.
Qed.

End Transients.

(** The same from the start of [retryOperation]: after [j] transient
    failures below the last attempt, the run is the loop at attempt
    [j + 1] with one unit of fuel or more. *)
Lemma retryOperation_after_transients {T : Type}
    (operation : nat -> Promise T) (random : nat -> Q)
    (operationName : option string) (config : option RetryConfig) (j : nat) :
  inject_Z (Z.of_nat j) <= maxRetries (resolved config) ->
  (forall i, (i < j)%nat ->
     inject_Z (Z.of_nat i + 1) < maxRetries (resolved config)
     /\ exists e, operation i = Rejected e
                  /\ isRetryableFirestoreError e = Returns true) ->
  exists fuel st_j,
    retryOperation operation random operationName config
    = attempt_loop operation random (or_default "operation" operationName)
        (resolved config) (S fuel) (Z.of_nat j + 1)%Z st_j
    /\ calls st_j = j /\ draws st_j = j
    /\ invocations (trace st_j) = j /\ sleeps (trace st_j) = j.
Proof.
  intros Hj Hops. unfold retryOperation. fold (resolved config).
  apply attempt_within in Hj.
  set (cfg := resolved config) in *.
  exists (Z.to_nat (Qfloor (maxRetries cfg)) - j)%nat.
  destruct (attempt_loop_after_transients operation random
              (or_default "operation" operationName) cfg j
              (S (Z.to_nat (Qfloor (maxRetries cfg)) - j)) 1%Z fresh)
    as (st_j & Hrun & Hc & Hd & Hi & Hs).
  - intros i Hi. destruct (Hops i Hi) as (Hlt & e & Hop & Hcls). split.
    + now replace (1 + Z.of_nat i)%Z with (Z.of_nat i + 1)%Z by lia.
    + now exists e.
  - exists st_j.
    replace (fuel_for cfg)
      with (j + S (Z.to_nat (Qfloor (maxRetries cfg)) - j))%nat
      by (unfold fuel_for; lia).
    rewrite Hrun. replace (1 + Z.of_nat j)%Z with (Z.of_nat j + 1)%Z by lia.
    cbn in Hc, Hd, Hi, Hs. now repeat split.
Qed.

(** The state a run starts its attempt [j + 1] in, after [j] transient
    failures, when that attempt is allowed. *)
Lemma retryOperation_reaches_attempt {T : Type}
    (operation : nat -> Promise T) (random : nat -> Q)
    (operationName : option string) (config : option RetryConfig) (j : nat) :
  transient_until operation j ->
  inject_Z (Z.of_nat j + 1) <= maxRetries (resolved config) ->
  exists fuel st_j,
    retryOperation operation random operationName config
    = attempt_loop operation random (or_default "operation" operationName)
        (resolved config) (S fuel) (Z.of_nat j + 1)%Z st_j
    /\ calls st_j = j /\ draws st_j = j
    /\ invocations (trace st_j) = j /\ sleeps (trace st_j) = j.
Proof.
  intros Hops Hmax. apply retryOperation_after_transients.
  - apply Qle_trans with (inject_Z (Z.of_nat j + 1)); [ | exact Hmax].
    rewrite <- Zle_Qle. lia.
  - intros i Hi. split; [ | now apply Hops].
    apply Qlt_le_trans with (inject_Z (Z.of_nat j + 1)); [ | exact Hmax].
    rewrite <- Zlt_Qlt. lia.
Qed.

(** X4. After j calls rejected with retryable errors, if attempt j + 1 is
    within maxRetries and the operation does not reject on it (it fulfils,
    or never settles), the promise of [retryOperation] is that call's
    promise, after exactly j + 1 calls and j sleeps. *)
Theorem X4_settles_after_transients {T : Type}
    (operation : nat -> Promise T) (random : nat -> Q)
    (operationName : option string) (config : option RetryConfig) (j : nat) :
  transient_until operation j ->
  inject_Z (Z.of_nat j + 1) <= maxRetries (resolved config) ->
  (forall e, operation j <> Rejected e) ->
  exists st,
    retryOperation operation random operationName config = Some (operation j, st)
    /\ calls st = S j
    /\ invocations (trace st) = S j
    /\ sleeps (trace st) = j.
Proof.
  intros Hops Hmax Hok.
  destruct (retryOperation_reaches_attempt operation random operationName config j
              Hops Hmax) as (fuel & st_j & -> & Hc & Hd & Hi & Hs).
  exists (invoke st_j). destruct (invoke_counts st_j) as (-> & _ & -> & -> & _).
  cbn [attempt_loop]. apply Qle_bool_iff in Hmax. rewrite Hmax, Hc.
  destruct (operation j) as [v | e | ] eqn:Hop;
    [ | now destruct (Hok e) | ]; repeat split; lia.
Qed.

Lemma X4_settles_after_transients_witness :
  exists st,
    retryOperation
      (fun i => match i with O => Rejected unavailable_error | _ => Fulfilled 7%Z end)
      (fun _ => 1 # 2) None None
    = Some (Fulfilled 7%Z, st)
    /\ calls st = 2%nat /\ invocations (trace st) = 2%nat /\ sleeps (trace st) = 1%nat.
Proof.
  apply (X4_settles_after_transients
           (fun i => match i with O => Rejected unavailable_error | _ => Fulfilled 7%Z end)
           (fun _ => 1 # 2) None None 1%nat).
  - intros i Hi. exists unavailable_error. destruct i; [split; reflexivity | lia].
  - discriminate.
  - intros e. discriminate.
Defined.

(** X5. After j calls rejected with retryable errors, if attempt j + 1 is
    within maxRetries and is rejected with an error the classifier calls
    not retryable, [retryOperation] rejects with that error after exactly
    j + 1 calls and j sleeps. *)
Theorem X5_permanent_error_after_transients {T : Type}
    (operation : nat -> Promise T) (random : nat -> Q)
    (operationName : option string) (config : option RetryConfig)
    (j : nat) (e : JsValue) :
  transient_until operation j ->
  inject_Z (Z.of_nat j + 1) <= maxRetries (resolved config) ->
  operation j = Rejected e ->
  isRetryableFirestoreError e = Returns false ->
  exists st,
    retryOperation operation random operationName config = Some (Rejected e, st)
    /\ calls st = S j
    /\ invocations (trace st) = S j
    /\ sleeps (trace st) = j.
Proof.
  intros Hops Hmax Hop Hcls.
  destruct (retryOperation_reaches_attempt operation random operationName config j
              Hops Hmax) as (fuel & st_j & -> & Hc & Hd & Hi & Hs).
  exists (invoke st_j). destruct (invoke_counts st_j) as (-> & _ & -> & -> & _).
  cbn [attempt_loop]. apply Qle_bool_iff in Hmax. rewrite Hmax, Hc, Hop, Hcls.
  destruct (Qeq_bool _ _); repeat split; lia.
Qed.

Lemma X5_permanent_error_after_transients_witness :
  exists st,
    retryOperation (T := unit)
      (fun i => match i with
                | O => Rejected unavailable_error
                | _ => Rejected permission_error
                end)
      (fun _ => 0) None (Some RetryConfigs.FAST)
    = Some (Rejected permission_error, st)
    /\ calls st = 2%nat /\ invocations (trace st) = 2%nat /\ sleeps (trace st) = 1%nat.
Proof.
  apply (X5_permanent_error_after_transients (T := unit)
           (fun i => match i with
                     | O => Rejected unavailable_error
                     | _ => Rejected permission_error
                     end)
           (fun _ => 0) None (Some RetryConfigs.FAST) 1%nat permission_error).
  - intros i Hi. exists unavailable_error. destruct i; [split; reflexivity | lia].
  - discriminate.
  - reflexivity.
  - reflexivity.
Defined.

(** X6. When the classifier throws on the error of an attempt that is not
    the last one allowed, [retryOperation] rejects with what the classifier
    threw: the operation's own error is lost. *)
Theorem X6_classifier_exception_replaces_error {T : Type}
    (operation : nat -> Promise T) (random : nat -> Q)
    (operationName : option string) (config : option RetryConfig)
    (j : nat) (e raised : JsValue) :
  transient_until operation j ->
  inject_Z (Z.of_nat j + 1) < maxRetries (resolved config) ->
  operation j = Rejected e ->
  isRetryableFirestoreError e = Throws raised ->
  exists st,
    retryOperation operation random operationName config = Some (Rejected raised, st)
    /\ calls st = S j
    /\ sleeps (trace st) = j.
Proof.
  intros Hops Hmax Hop Hcls.
  destruct (retryOperation_reaches_attempt operation random operationName config j
              Hops (Qlt_le_weak _ _ Hmax)) as (fuel & st_j & -> & Hc & Hd & Hi & Hs).
  exists (invoke st_j). destruct (invoke_counts st_j) as (-> & _ & _ & -> & _).
  cbn [attempt_loop].
  assert (Hle : Qle_bool (inject_Z (Z.of_nat j + 1)) (maxRetries (resolved config)) = true)
    by (now apply Qle_bool_iff, Qlt_le_weak).
  rewrite Hle, Hc, Hop, Hcls.
  destruct (Qeq_bool _ _) eqn:E.
  - apply Qeq_bool_iff in E. now apply Qlt_not_eq in Hmax.
  - repeat split; lia.
Qed.

Lemma X6_classifier_exception_replaces_error_witness :
  exists st,
    retryOperation (T := unit) (fun _ => Rejected (JObj [("message", JNum 42)]))
      (fun _ => 0) None None
    = Some (Rejected TypeError_not_a_function, st)
    /\ calls st = 1%nat /\ sleeps (trace st) = 0%nat.
Proof.
  apply (X6_classifier_exception_replaces_error (T := unit)
           (fun _ => Rejected (JObj [("message", JNum 42)])) (fun _ => 0) None None
           0%nat (JObj [("message", JNum 42)]) TypeError_not_a_function).
  - intros i Hi. lia.
  - reflexivity.
  - reflexivity.
  - reflexivity.
Defined.

(** X7. On the last attempt allowed the classifier is not consulted: after
    j transient failures with maxRetries = j + 1, whatever the operation
    comes to on call j + 1 - a value, any error at all, or nothing - is
    what [retryOperation] comes to, after j + 1 calls and j sleeps. *)
Theorem X7_last_attempt_is_passed_through {T : Type}
    (operation : nat -> Promise T) (random : nat -> Q)
    (operationName : option string) (config : option RetryConfig) (j : nat) :
  transient_until operation j ->
  maxRetries (resolved config) == inject_Z (Z.of_nat j + 1) ->
  exists st,
    retryOperation operation random operationName config = Some (operation j, st)
    /\ calls st = S j
    /\ invocations (trace st) = S j
    /\ sleeps (trace st) = j.
Proof.
  intros Hops Hmax.
  assert (Hle : inject_Z (Z.of_nat j + 1) <= maxRetries (resolved config))
    by (rewrite Hmax; apply Qle_refl).
  destruct (retryOperation_reaches_attempt operation random operationName config j
              Hops Hle) as (fuel & st_j & -> & Hc & Hd & Hi & Hs).
  exists (invoke st_j). destruct (invoke_counts st_j) as (-> & _ & -> & -> & _).
  cbn [attempt_loop]. apply Qle_bool_iff in Hle. rewrite Hle, Hc.
  assert (Heq : Qeq_bool (inject_Z (Z.of_nat j + 1)) (maxRetries (resolved config)) = true)
    by (apply Qeq_bool_iff; now symmetry).
  rewrite Heq.
  destruct (operation j) as [v | e | ]; repeat split; lia.
Qed.

Lemma X7_last_attempt_is_passed_through_witness :
  exists st,
    retryOperation (T := unit) (fun _ => Rejected (JObj [("message", JNum 42)]))
      (fun _ => 0) None (Some (mkRetryConfig (Some 1) None None None))
    = Some (Rejected (JObj [("message", JNum 42)]), st)
    /\ calls st = 1%nat /\ invocations (trace st) = 1%nat /\ sleeps (trace st) = 0%nat.
Proof.
  apply (X7_last_attempt_is_passed_through (T := unit)
           (fun _ => Rejected (JObj [("message", JNum 42)])) (fun _ => 0) None
           (Some (mkRetryConfig (Some 1) None None None)) 0%nat).
  - intros i Hi. lia.
  - reflexivity.
Defined.

(** X8. When maxRetries is not a whole number, no attempt is ever the last
    one: if every call allowed is rejected with a retryable error, the run
    makes floor(maxRetries) calls, sleeps after each of them, the last one
    included, and rejects with the "Max retries exceeded" Error in place of
    the operation's error. *)
Theorem X8_fractional_maxRetries_loses_the_error {T : Type}
    (operation : nat -> Promise T) (random : nat -> Q)
    (operationName : option string) (config : option RetryConfig) :
  0 <= maxRetries (resolved config) ->
  inject_Z (Qfloor (maxRetries (resolved config))) < maxRetries (resolved config) ->
  transient_until operation (Z.to_nat (Qfloor (maxRetries (resolved config)))) ->
  exists st,
    retryOperation operation random operationName config
    = Some (Rejected (max_retries_exceeded (or_default "operation" operationName)), st)
    /\ calls st = Z.to_nat (Qfloor (maxRetries (resolved config)))
    /\ sleeps (trace st) = Z.to_nat (Qfloor (maxRetries (resolved config))).
Proof.
  intros Hpos Hfrac Hops.
  set (cfg := resolved config) in *.
  assert (Hfloor : (0 <= Qfloor (maxRetries cfg))%Z).
  { change 0%Z with (Qfloor 0). now apply Qfloor_resp_le. }
  set (k := Z.to_nat (Qfloor (maxRetries cfg))) in *.
  assert (Hk : Z.of_nat k = Qfloor (maxRetries cfg)) by (unfold k; lia).
  destruct (retryOperation_after_transients operation random operationName config k)
    as (fuel & st_k & -> & Hc & Hd & Hi & Hs).
  - fold cfg. rewrite Hk. apply Qfloor_le.
  - intros i Hi. split; [ | now apply Hops]. fold cfg.
    apply Qle_lt_trans with (inject_Z (Qfloor (maxRetries cfg))); [ | exact Hfrac].
    rewrite <- Zle_Qle. lia.
  - exists st_k. fold cfg. cbn [attempt_loop].
    destruct (Qle_bool (inject_Z (Z.of_nat k + 1)) (maxRetries cfg)) eqn:Hle.
    + apply Qle_bool_iff in Hle. exfalso.
      apply (Qlt_not_le _ _ (Qlt_floor (maxRetries cfg))). now rewrite <- Hk.
    + now repeat split.
Qed.

Lemma X8_fractional_maxRetries_loses_the_error_witness :
  exists st,
    retryOperation (T := unit) (fun _ => Rejected unavailable_error) (fun _ => 0)
      (Some "write") (Some (mkRetryConfig (Some (5 # 2)) None None None))
    = Some (Rejected (max_retries_exceeded "write"), st)
    /\ calls st = 2%nat /\ sleeps (trace st) = 2%nat.
Proof.
  apply (X8_fractional_maxRetries_loses_the_error (T := unit)
           (fun _ => Rejected unavailable_error) (fun _ => 0)
           (Some "write") (Some (mkRetryConfig (Some (5 # 2)) None None None))).
  - discriminate.
  - reflexivity.
  - intros i _. exists unavailable_error. split; reflexivity.
Defined.

(** ** Where a result comes from *)

(** Where the result of a run comes from. *)
Lemma retryOperation_provenance {T : Type}
    (operation : nat -> Promise T) (random : nat -> Q)
    (operationName : option string) (config : option RetryConfig)
    (p : Promise T) (st : Sched) :
  retryOperation operation random operationName config = Some (p, st) ->
  transient_until operation (draws st)
  /\ (calls st = draws st
      /\ p = Rejected (max_retries_exceeded (or_default "operation" operationName))
      \/ calls st = S (draws st)
         /\ (p = operation (draws st)
             \/ exists e raised,
                  operation (draws st) = Rejected e
                  /\ isRetryableFirestoreError e = Throws raised
                  /\ p = Rejected raised)).
Proof.
  unfold retryOperation. fold (resolved config).
  set (cfg := resolved config). set (name := or_default "operation" operationName).
  intros Hrun.
  refine (attempt_loop_rule operation random name cfg
            (fun _ st => draws st = calls st /\ transient_until operation (draws st))
            (fun p st =>
               transient_until operation (draws st)
               /\ (calls st = draws st /\ p = Rejected (max_retries_exceeded name)
                   \/ calls st = S (draws st)
                      /\ (p = operation (draws st)
                          \/ exists e raised,
                               operation (draws st) = Rejected e
                               /\ isRetryableFirestoreError e = Throws raised
                               /\ p = Rejected raised)))
            _ _ _ _ _ _ _ _ Hrun).
  - intros attempt st0 st2 (Hd & Hpast) Hiter.
    apply iteration_again in Hiter as (_ & _ & e & Hop & Hcls & ->).
    destruct (back_off_counts name cfg attempt e
                (calculateDelay attempt cfg (random (draws st0))) (invoke st0))
      as (-> & -> & _).
    destruct (invoke_counts st0) as (-> & -> & _).
    split; [lia | ].
    intros i Hi. destruct (Nat.eq_dec i (draws st0)) as [-> | Hne].
    + exists e. rewrite Hd. now split.
    + apply Hpast. lia.
  - intros attempt st0 p0 st' (Hd & Hpast) Hends.
    destruct Hends as [Hout | Hle _ | e Heq Hop | e Hle _ Hop _ | e raised Hle _ Hop Hcls];
      try (destruct (invoke_counts st0) as (-> & -> & _));
      (split; [exact Hpast | ]).
    + left. split; [now symmetry | reflexivity].
    + right. split; [lia | left; now rewrite Hd].
    + right. split; [lia | left; now rewrite Hd].
    + right. split; [lia | left; now rewrite Hd].
    + right. split; [lia | right]. exists e, raised. rewrite Hd. now repeat split.
  - split; [reflexivity | ]. intros i Hi. cbn in Hi. lia.
Qed.

(** X9. Whatever [retryOperation] comes to, every call but the last was
    rejected with an error the classifier calls retryable, and the result
    is one of: the "Max retries exceeded" Error, with as many sleeps as
    calls; or, with one call more than sleeps, the promise of the last
    call itself, or what the classifier threw on the last call's error.
    So a fulfilled result is always the value of the last call, and a
    failure is never turned into a success. *)
Theorem X9_result_comes_from_last_call {T : Type}
    (operation : nat -> Promise T) (random : nat -> Q)
    (operationName : option string) (config : option RetryConfig) :
  exists p st,
    retryOperation operation random operationName config = Some (p, st)
    /\ transient_until operation (draws st)
    /\ (calls st = draws st
        /\ p = Rejected (max_retries_exceeded (or_default "operation" operationName))
        \/ calls st = S (draws st)
           /\ (p = operation (draws st)
               \/ exists e raised,
                    operation (draws st) = Rejected e
                    /\ isRetryableFirestoreError e = Throws raised
                    /\ p = Rejected raised)).
Proof.
  destruct (retryOperation_total operation random operationName config) as [[p st] Hrun].
  exists p, st. split; [exact Hrun | ].
  exact (retryOperation_provenance _ _ _ _ _ _ Hrun).
Qed.

(** ** What the draws and the name do not decide *)

(** Two runs of the loop over the same operation and configuration, with
    their own random draws and operation names, from states that agree on
    the calls and draws made. *)
Lemma attempt_loop_same_course {T : Type} (operation : nat -> Promise T)
    (random random' : nat -> Q) (name name' : string) (cfg : RequiredRetryConfig) :
  forall (fuel : nat) (attempt : Z) (st st' : Sched),
    calls st = calls st' -> draws st = draws st' ->
    match attempt_loop operation random name cfg fuel attempt st,
          attempt_loop operation random' name' cfg fuel attempt st' with
    | Some (p, s), Some (p', s') =>
        calls s = calls s' /\ draws s = draws s'
        /\ (p = p'
            \/ p = Rejected (max_retries_exceeded name)
               /\ p' = Rejected (max_retries_exceeded name'))
    | None, None => True
    | _, _ => False
    end.
Proof.
  induction fuel as [ | fuel IH]; intros attempt st st' Hc Hd; [exact I | ].
  cbn [attempt_loop]. rewrite <- Hc.
  destruct (Qle_bool (inject_Z attempt) (maxRetries cfg)).
  - destruct (operation (calls st)) as [v | error | ];
      try (cbn [invoke calls draws]; repeat split; [lia | assumption | now left]).
    destruct (Qeq_bool (inject_Z attempt) (maxRetries cfg));
      [cbn [invoke calls draws]; repeat split; [lia | assumption | now left] | ].
    destruct (isRetryableFirestoreError error) as [[ | ] | raised];
      try (cbn [invoke calls draws]; repeat split; [lia | assumption | now left]).
    apply IH; cbn [back_off invoke calls draws]; lia.
  - repeat split; try assumption. right. now split.
Qed.

(** X10. Neither the random draws nor the operation name decide the course
    of a run: with any two streams of draws and any two names,
    [retryOperation] makes the same number of calls and of sleeps and comes
    to the same promise, except that the "Max retries exceeded" Error
    carries the name it was given. *)
Theorem X10_draws_and_name_do_not_steer {T : Type}
    (operation : nat -> Promise T) (random random' : nat -> Q)
    (operationName operationName' : option string) (config : option RetryConfig) :
  exists p st p' st',
    retryOperation operation random operationName config = Some (p, st)
    /\ retryOperation operation random' operationName' config = Some (p', st')
    /\ calls st = calls st'
    /\ draws st = draws st'
    /\ (p = p'
        \/ p = Rejected (max_retries_exceeded (or_default "operation" operationName))
           /\ p' = Rejected (max_retries_exceeded (or_default "operation" operationName'))).
Proof.
  destruct (retryOperation_total operation random operationName config)
    as [[p st] Hrun].
  destruct (retryOperation_total operation random' operationName' config)
    as [[p' st'] Hrun'].
  exists p, st, p', st'. split; [exact Hrun | split; [exact Hrun' | ]].
  unfold retryOperation in Hrun, Hrun'.
  pose proof (attempt_loop_same_course operation random random'
                (or_default "operation" operationName)
                (or_default "operation" operationName')
                (spread DEFAULT_RETRY_CONFIG (or_default empty_config config))
                (fuel_for (spread DEFAULT_RETRY_CONFIG (or_default empty_config config)))
                1%Z fresh fresh eq_refl eq_refl) as Hsame.
  rewrite Hrun, Hrun' in Hsame. exact Hsame.
Qed.

(** ** More on the classifier *)

Lemma toLowerCase_app (s t : string) :
  toLowerCase (s ++ t) = (toLowerCase s ++ toLowerCase t)%string.
Proof.
  induction s as [ | c s IH]; cbn; [reflexivity | now rewrite IH].
Qed.

Lemma prefix_app (s t : string) : String.prefix s (s ++ t) = true.
Proof.
  induction s as [ | c s IH]; cbn; [now destruct t | ].
  destruct (ascii_dec c c) as [_ | Hne]; [exact IH | now destruct Hne].
Qed.

Lemma includes_unfold (s sub : string) :
  includes s sub
  = String.prefix sub s
    || match s with
       | EmptyString => false
       | String _ rest => includes rest sub
       end.
Proof. now destruct s. Qed.

(** A string includes what it was put together around. *)
Lemma includes_middle (pre sub post : string) :
  includes (pre ++ sub ++ post) sub = true.
Proof.
  induction pre as [ | c pre IH].
  - rewrite includes_unfold. cbn [append]. now rewrite prefix_app.
  - rewrite includes_unfold. cbn [append]. rewrite IH. apply orb_true_r.
Qed.

Lemma append_empty (s t : string) : (s ++ t)%string = "" -> s = "" /\ t = "".
Proof. destruct s; cbn; [now split | discriminate]. Qed.

(** The classifier on an object whose message is a non-empty string: the
    other two fields are not read. *)
Lemma classifier_on_message (error : JsValue) (c : ascii) (s : string) :
  opt_get error "message" = JStr (String c s) ->
  isRetryableFirestoreError error
  = Returns (verdict (toLowerCase (String c s)) (opt_get error "code")).
Proof.
  intros Hmsg. unfold isRetryableFirestoreError, errorMessage_of.
  now rewrite Hmsg.
Qed.

(** X11. An error object whose message contains, anywhere and in any
    letter case, one of "quota exceeded", "write limit", "unavailable",
    "timeout", "deadline exceeded", "internal server error" or
    "resource exhausted" is retryable, whatever its code, details and msg
    are (strings or not). *)
Theorem X11_keyword_in_message_is_retryable
    (props : list (string * JsValue)) (pre kw post : string) :
  lookup "message" props = JStr (pre ++ kw ++ post) ->
  In (toLowerCase kw) transient_keywords ->
  isRetryableFirestoreError (JObj props) = Returns true.
Proof.
  intros Hmsg Hkw.
  assert (Hinc : includes (toLowerCase (pre ++ kw ++ post)) (toLowerCase kw) = true).
  { rewrite !toLowerCase_app. apply includes_middle. }
  destruct (pre ++ kw ++ post)%string as [ | c s] eqn:Hm.
  - apply append_empty in Hm as [_ Hm]. apply append_empty in Hm as [-> _].
    cbn in Hkw. exfalso. intuition discriminate.
  - rewrite (classifier_on_message (JObj props) c s Hmsg). f_equal.
    rewrite verdict_orb. set (m := toLowerCase (String c s)) in *.
    cbn [transient_keywords In] in Hkw.
    destruct Hkw as [E | [E | [E | [E | [E | [E | [E | []]]]]]]];
      rewrite <- E in Hinc; rewrite Hinc;
      repeat (rewrite orb_true_r || rewrite orb_true_l); reflexivity.
Qed.

Lemma X11_keyword_in_message_is_retryable_witness :
  isRetryableFirestoreError
    (JObj [("message", JStr "10 ABORTED: Deadline Exceeded on commit");
           ("details", JNum 42)])
  = Returns true.
Proof.
  apply (X11_keyword_in_message_is_retryable
           [("message", JStr "10 ABORTED: Deadline Exceeded on commit");
            ("details", JNum 42)]
           "10 ABORTED: " "Deadline Exceeded" " on commit").
  - reflexivity.
  - cbn. intuition.
Defined.

(** X12. The order of the rules decides nothing, and "rst_stream" is never
    looked at to any effect: on an error value whose message, details and
    msg are absent, null or strings, the verdict is retryable exactly when
    the code is the number 8, 13 or 14 or the extracted message includes
    one of the seven fragments. *)
Theorem X12_verdict_is_code_or_keyword (error : JsValue) :
  string_like error = true ->
  isRetryableFirestoreError error
  = Returns (existsb (strict_eq_num (opt_get error "code")) transient_codes
             || existsb (includes (spec_message error)) transient_keywords).
Proof.
  intros Hshape. rewrite (classifier_returns_on_string_like error Hshape). f_equal.
  rewrite verdict_orb. cbn [existsb transient_codes transient_keywords].
  destruct (strict_eq_num (opt_get error "code") 13);
    destruct (strict_eq_num (opt_get error "code") 14);
    destruct (strict_eq_num (opt_get error "code") 8);
    cbn [andb orb];
    repeat (rewrite orb_true_r || rewrite orb_false_r); try reflexivity;
    destruct (includes (spec_message error) "rst_stream"); cbn [andb orb];
    repeat (rewrite orb_true_r || rewrite orb_false_r); try reflexivity;
    rewrite <- ?orb_assoc; reflexivity.
Qed.

Lemma X12_verdict_is_code_or_keyword_witness :
  isRetryableFirestoreError (JObj [("code", JNum 8); ("msg", JStr "slow down")])
  = Returns true.
Proof.
  apply (X12_verdict_is_code_or_keyword
           (JObj [("code", JNum 8); ("msg", JStr "slow down")])).
  reflexivity.
Defined.

(** X13. Only an object can be retryable: on undefined, null, a boolean, a
    number or a string - the string "timeout" among them - the classifier
    returns false and does not throw. *)
Theorem X13_only_objects_are_retryable (error : JsValue) :
  (forall props, error <> JObj props) ->
  isRetryableFirestoreError error = Returns false.
Proof.
  intros Hprim. destruct error; try reflexivity. now destruct (Hprim props).
Qed.

Lemma X13_only_objects_are_retryable_witness :
  isRetryableFirestoreError (JStr "timeout") = Returns false.
Proof.
  apply (X13_only_objects_are_retryable (JStr "timeout")). intros props. discriminate.
Defined.

(** X14. A non-empty string in message hides details and msg: two error
    values with the same such message and the same code get the same
    verdict, and the classifier returns on both, whatever else they
    hold. *)
Theorem X14_message_hides_other_fields (e1 e2 : JsValue) (c : ascii) (s : string) :
  opt_get e1 "message" = JStr (String c s) ->
  opt_get e2 "message" = JStr (String c s) ->
  opt_get e1 "code" = opt_get e2 "code" ->
  exists b,
    isRetryableFirestoreError e1 = Returns b /\ isRetryableFirestoreError e2 = Returns b.
Proof.
  intros H1 H2 Hcode.
  exists (verdict (toLowerCase (String c s)) (opt_get e1 "code")).
  split; [now apply classifier_on_message | ].
  rewrite Hcode. now apply classifier_on_message.
Qed.

Lemma X14_message_hides_other_fields_witness :
  exists b,
    isRetryableFirestoreError
      (JObj [("message", JStr "not found"); ("details", JStr "timeout")])
    = Returns b
    /\ isRetryableFirestoreError
         (JObj [("message", JStr "not found"); ("msg", JNum 42)])
       = Returns b.
Proof.
  apply (X14_message_hides_other_fields
           (JObj [("message", JStr "not found"); ("details", JStr "timeout")])
           (JObj [("message", JStr "not found"); ("msg", JNum 42)])
           "n"%char "ot found"); reflexivity.
Defined.

(** ** More on the batch accumulator *)

Lemma call_outcome (refuses : list Write -> Write -> option JsValue)
    (this : RetryableBatch) (w : Write) :
  call refuses this w
  = match refuses (batch this) w with
    | Some raised => Throws raised
    | None => Returns (counted this w)
    end.
Proof. now destruct w. Qed.

(** What a sequence of calls does to the fields of a batch. *)
Lemma call_all_fields (refuses : list Write -> Write -> option JsValue)
    (ws : list Write) :
  forall this : RetryableBatch,
    operationCount (call_all refuses this ws)
    = (operationCount this + count_occ bool_dec (returned refuses this ws) true)%nat
    /\ List.length (batch (call_all refuses this ws))
       = (List.length (batch this)
          + count_occ bool_dec (returned refuses this ws) true)%nat
    /\ config (call_all refuses this ws) = config this
    /\ (count_occ bool_dec (returned refuses this ws) true <= List.length ws)%nat.
Proof.
  induction ws as [ | w ws IH]; intros this; cbn [call_all returned].
  - cbn. repeat split; lia.
  - rewrite call_outcome. destruct (refuses (batch this) w) as [raised | ].
    + destruct (IH this) as (Hn & Hb & Hc & Hle).
      rewrite Hn, Hb, Hc. cbn. repeat split; lia.
    + destruct (IH (counted this w)) as (Hn & Hb & Hc & Hle).
      rewrite Hn, Hb, Hc. cbn [counted operationCount batch config].
      rewrite length_app. cbn. repeat split; lia.
Qed.

(** When the underlying batch takes every write, the calls accumulate. *)
Lemma call_all_accumulates (refuses : list Write -> Write -> option JsValue)
    (ws : list Write) :
  (forall held w, refuses held w = None) ->
  forall this : RetryableBatch, call_all refuses this ws = accumulate_all this ws.
Proof.
  intros Htakes. unfold accumulate_all.
  induction ws as [ | w ws IH]; intros this; cbn [call_all fold_left]; [reflexivity | ].
  rewrite call_outcome, Htakes. apply IH.
Qed.

(** X17. After any sequence of set, update and delete calls on a new batch,
    each call free to throw where the underlying batch throws, the
    operation count is the number of calls that returned - a call that the
    underlying batch made throw is not counted - which is the number of
    writes the underlying batch holds; the configuration is the one
    resolved at construction; and when no call throws, the count is the
    number of calls, whatever their mix. *)
Theorem X17_count_is_the_calls_that_returned
    (refuses : list Write -> Write -> option JsValue)
    (cfg : option RetryConfig) (ws : list Write) :
  getOperationCount (call_all refuses (createRetryableBatch cfg) ws)
  = count_occ bool_dec (returned refuses (createRetryableBatch cfg) ws) true
  /\ getOperationCount (call_all refuses (createRetryableBatch cfg) ws)
     = List.length (batch (call_all refuses (createRetryableBatch cfg) ws))
  /\ (getOperationCount (call_all refuses (createRetryableBatch cfg) ws)
      <= List.length ws)%nat
  /\ config (call_all refuses (createRetryableBatch cfg) ws) = resolved cfg
  /\ ((forall held w, refuses held w = None) ->
      call_all refuses (createRetryableBatch cfg) ws
      = accumulate_all (createRetryableBatch cfg) ws
      /\ getOperationCount (call_all refuses (createRetryableBatch cfg) ws)
         = List.length ws).
Proof.
  destruct (call_all_fields refuses ws (createRetryableBatch cfg)) as (Hn & Hb & Hc & Hle).
  cbn [createRetryableBatch new_RetryableBatch operationCount batch config
       List.length Nat.add] in Hn, Hb, Hc.
  unfold getOperationCount.
  split; [exact Hn | ].
  split; [now rewrite Hn, Hb | ].
  split; [now rewrite Hn | ].
  split; [exact Hc | ].
  intros Htakes. rewrite (call_all_accumulates refuses ws Htakes).
  split; [reflexivity | ].
  now destruct (accumulate_all_fields ws (createRetryableBatch cfg)) as (_ & _ & ->).
Qed.

(** A call that throws between two that return: the count is two. *)
Example count_skips_a_throwing_call :
  getOperationCount
    (call_all (fun _ w => match w with
                          | WUpdate _ _ => Some (new_Error "invalid data")
                          | _ => None
                          end)
       (createRetryableBatch None)
       [WSet "users/1" JNull None; WUpdate "users/1" JUndefined; WDelete "users/2"])
  = 2%nat.
Proof. reflexivity. Qed.

(** [commit] on a batch that holds a write. *)
Lemma commit_of_nonempty {T : Type}
    (commit_primitive : list Write -> nat -> Promise T) (random : nat -> Q)
    (cfg : option RetryConfig) (ws : list Write) :
  ws <> [] ->
  commit commit_primitive random (accumulate_all (createRetryableBatch cfg) ws)
  = retryFirestoreBatchCommit (commit_primitive ws) random cfg.
Proof.
  intros Hne.
  destruct (accumulate_all_fields ws (createRetryableBatch cfg)) as (Hb & Hc & Hn).
  unfold commit. rewrite Hb, Hc, Hn.
  destruct ws as [ | w ws]; [now destruct Hne | ].
  cbn [createRetryableBatch new_RetryableBatch operationCount batch config
       List.length Nat.add Nat.eqb app].
  unfold retryFirestoreBatchCommit, retryOperation. cbn [or_default].
  now rewrite spread_as_partial.
Qed.

(** X18. Committing a batch that holds at least one write is the same as
    [retryFirestoreBatchCommit] on the underlying batch with the very
    configuration the batch was created with: the second merge over the
    defaults changes nothing. *)
Theorem X18_commit_is_retryFirestoreBatchCommit {T : Type}
    (commit_primitive : list Write -> nat -> Promise T) (random : nat -> Q)
    (cfg : option RetryConfig) (ws : list Write) :
  ws <> [] ->
  commit commit_primitive random (accumulate_all (createRetryableBatch cfg) ws)
  = retryFirestoreBatchCommit (commit_primitive ws) random cfg.
Proof.
  intros Hne. now apply commit_of_nonempty.
Qed.

Lemma X18_commit_is_retryFirestoreBatchCommit_witness :
  commit (T := unit) (fun _ _ => Rejected unavailable_error) (fun _ => 0)
    (accumulate_all (createRetryableBatch (Some RetryConfigs.FAST))
       [WDelete "users/1"])
  = retryFirestoreBatchCommit (T := unit) (fun _ => Rejected unavailable_error)
      (fun _ => 0) (Some RetryConfigs.FAST).
Proof.
  apply (X18_commit_is_retryFirestoreBatchCommit (T := unit)
           (fun _ _ => Rejected unavailable_error) (fun _ => 0)
           (Some RetryConfigs.FAST) [WDelete "users/1"]).
  discriminate.
Defined.

(** X19. Whenever [commit] comes to a result, the underlying commit has
    been called at most floor(maxRetries) times, and [commit] is fulfilled
    only when the batch is empty or the last call of the underlying commit
    was fulfilled: a failed commit is never reported as done. *)
Theorem X19_commit_is_bounded_and_honest {T : Type}
    (commit_primitive : list Write -> nat -> Promise T) (random : nat -> Q)
    (cfg : option RetryConfig) (ws : list Write) (p : Promise unit) (st : Sched) :
  commit commit_primitive random (accumulate_all (createRetryableBatch cfg) ws)
  = Some (p, st) ->
  (calls st <= Z.to_nat (Qfloor (maxRetries (resolved cfg))))%nat
  /\ invocations (trace st) = calls st
  /\ (p = Fulfilled tt ->
      ws = []
      \/ exists v, commit_primitive ws (calls st - 1)%nat = Fulfilled v).
Proof.
  destruct ws as [ | w ws].
  - intros [= <- <-]. cbn. repeat split; try lia. now left.
  - rewrite commit_of_nonempty by discriminate.
    unfold retryFirestoreBatchCommit.
    destruct (retryOperation (commit_primitive (w :: ws)) random
                (Some "Firestore batch commit") cfg) as [[p0 st0] | ] eqn:Hrun;
      [ | discriminate].
    destruct (retryOperation_counters _ _ _ _ _ _ Hrun) as (Hb & Hi & _ & _ & _).
    destruct (retryOperation_provenance _ _ _ _ _ _ Hrun) as (_ & Hfrom).
    destruct p0 as [v | e | ]; cbn [await_void]; intros [= <- <-];
      (split; [exact Hb | ]); (split; [exact Hi | ]); try discriminate.
    intros _. right.
    destruct Hfrom as [[_ Habs] | [Hc [Hlast | (e & raised & _ & _ & Habs)]]];
      try discriminate.
    exists v. rewrite Hc. now replace (S (draws st0) - 1)%nat with (draws st0) by lia.
Qed.

Lemma X19_commit_is_bounded_and_honest_witness :
  exists p st,
    commit (fun _ i => match i with
                       | O => Rejected unavailable_error
                       | _ => Fulfilled 7%Z
                       end)
      (fun _ => 1 # 2)
      (accumulate_all (createRetryableBatch (Some RetryConfigs.FAST)) [WDelete "users/1"])
    = Some (p, st)
    /\ (calls st <= 3)%nat
    /\ invocations (trace st) = calls st
    /\ (p = Fulfilled tt ->
        [WDelete "users/1"] = []
        \/ exists v,
             match (calls st - 1)%nat with
             | O => Rejected unavailable_error
             | _ => Fulfilled 7%Z
             end = Fulfilled v).
Proof.
  eexists _, _. split; [reflexivity | ].
  eapply (X19_commit_is_bounded_and_honest
           (fun _ i => match i with
                       | O => Rejected unavailable_error
                       | _ => Fulfilled 7%Z
                       end)
           (fun _ => 1 # 2) (Some RetryConfigs.FAST) [WDelete "users/1"]).
  reflexivity.
Defined.

(** ** The other entry point, and whole numbers of attempts *)

(** X20. [retryFirestoreOperation] is [retryOperation] under another default
    name: with a name given the two agree outright; with the name left out
    they make the same calls and sleeps and come to the same promise,
    except that the "Max retries exceeded" Error says "document operation"
    in one and "operation" in the other. *)
Theorem X20_retryFirestoreOperation_is_retryOperation {T : Type}
    (operation : nat -> Promise T) (random : nat -> Q) (config : option RetryConfig) :
  (forall name,
      retryFirestoreOperation operation random (Some name) config
      = retryOperation operation random (Some name) config)
  /\ exists p st p' st',
       retryFirestoreOperation operation random None config = Some (p, st)
       /\ retryOperation operation random None config = Some (p', st')
       /\ calls st = calls st' /\ draws st = draws st'
       /\ (p = p'
           \/ p = Rejected (max_retries_exceeded "document operation")
              /\ p' = Rejected (max_retries_exceeded "operation")).
Proof.
  split; [reflexivity | ].
  unfold retryFirestoreOperation. cbn [or_default].
  destruct (retryOperation_total operation random (Some "document operation") config)
    as [[p st] Hrun].
  destruct (retryOperation_total operation random None config) as [[p' st'] Hrun'].
  exists p, st, p', st'. split; [exact Hrun | split; [exact Hrun' | ]].
  unfold retryOperation in Hrun, Hrun'.
  pose proof (attempt_loop_same_course operation random random
                "document operation" "operation"
                (spread DEFAULT_RETRY_CONFIG (or_default empty_config config))
                (fuel_for (spread DEFAULT_RETRY_CONFIG (or_default empty_config config)))
                1%Z fresh fresh eq_refl eq_refl) as Hsame.
  cbn [or_default] in Hrun, Hrun'. rewrite Hrun, Hrun' in Hsame. exact Hsame.
Qed.

(** X21. With a whole number of at least 1 for maxRetries the statement
    after the loop is never reached: the run ends on a call of the
    operation, with one call more than sleeps, and what it comes to is that
    call's promise or what the classifier threw on its error. *)
Theorem X21_whole_maxRetries_never_falls_through {T : Type}
    (operation : nat -> Promise T) (random : nat -> Q)
    (operationName : option string) (config : option RetryConfig) (k : Z) :
  (1 <= k)%Z ->
  maxRetries (resolved config) == inject_Z k ->
  exists p st,
    retryOperation operation random operationName config = Some (p, st)
    /\ calls st = S (draws st)
    /\ (p = operation (draws st)
        \/ exists e raised,
             operation (draws st) = Rejected e
             /\ isRetryableFirestoreError e = Throws raised
             /\ p = Rejected raised).
Proof.
  intros Hk Hmax.
  destruct (retryOperation_total operation random operationName config) as [[p st] Hrun].
  exists p, st. split; [exact Hrun | ].
  unfold retryOperation in Hrun. fold (resolved config) in Hrun.
  set (cfg := resolved config) in *.
  set (name := or_default "operation" operationName) in *.
  refine (attempt_loop_rule operation random name cfg
            (fun attempt st => (attempt <= k)%Z /\ draws st = calls st)
            (fun p st =>
               calls st = S (draws st)
               /\ (p = operation (draws st)
                   \/ exists e raised,
                        operation (draws st) = Rejected e
                        /\ isRetryableFirestoreError e = Throws raised
                        /\ p = Rejected raised))
            _ _ _ _ _ _ _ _ Hrun).
  - intros attempt st0 st2 (Ha & Hd) Hiter.
    apply iteration_again in Hiter as (_ & Hne & e & _ & _ & ->).
    destruct (back_off_counts name cfg attempt e
                (calculateDelay attempt cfg (random (draws st0))) (invoke st0))
      as (-> & -> & _).
    destruct (invoke_counts st0) as (-> & -> & _).
    split; [ | lia].
    assert (attempt <> k) by (intros ->; apply Hne; now symmetry).
    lia.
  - intros attempt st0 p0 st' (Ha & Hd) Hends.
    destruct Hends as [Hout | Hle _ | e Heq Hop | e Hle _ Hop _ | e raised Hle _ Hop Hcls];
      try (destruct (invoke_counts st0) as (-> & -> & _)).
    + exfalso. apply Hout. rewrite Hmax, <- Zle_Qle. exact Ha.
    + split; [lia | left; now rewrite Hd].
    + split; [lia | left; now rewrite Hd].
    + split; [lia | left; now rewrite Hd].
    + split; [lia | right]. exists e, raised. rewrite Hd. now repeat split.
  - split; [exact Hk | reflexivity].
Qed.

Lemma X21_whole_maxRetries_never_falls_through_witness :
  exists p st,
    retryOperation (T := unit) (fun _ => Rejected unavailable_error) (fun _ => 0)
      None (Some RetryConfigs.AGGRESSIVE)
    = Some (p, st)
    /\ calls st = S (draws st)
    /\ (p = Rejected unavailable_error
        \/ exists e raised,
             Rejected (T := unit) unavailable_error = Rejected e
             /\ isRetryableFirestoreError e = Throws raised
             /\ p = Rejected raised).
Proof.
  apply (X21_whole_maxRetries_never_falls_through (T := unit)
           (fun _ => Rejected unavailable_error) (fun _ => 0)
           None (Some RetryConfigs.AGGRESSIVE) 10%Z).
  - lia.
  - reflexivity.
Defined.
